(** * A path-routed reverse proxy and its certificate manager

    Shallow embedding of the Go packages [proxy] (proxy/proxy.go) and [ssl]
    (the certificate manager), with the statements of their specification.

    Conventions of the embedding.
    - A Go pointer [*T] that the code compares with, or may receive as, [nil]
      is an [option T]; [None] is [nil].
    - A Go [map[string]V] is a [gmap string V]: a key is present exactly when
      the lookup is [Some _]; a present key may hold a nil pointer.
    - A method that mutates its receiver takes the receiver's state and
      returns the new state next to its result.
    - A panic is an outcome of its own ([Panicked]); the state reached when
      the panic is raised is kept, since a deferred [Unlock] releases the
      lock and a recovering caller goes on with that state.
    - The locks ([sync.RWMutex]) order concurrent calls; the embedding is of
      one call at a time and leaves them out.
    - What the program takes from Go's library and runtime and what is not
      fixed by the program's text (the authority grammar of [net/url], the
      pattern rules of [http.ServeMux], the files on disk, the order in which
      [range] walks a map) is an explicit parameter. *)

From stdpp Require Import gmap strings list fin_maps.
From Stdlib Require Import Ascii String.

Open Scope string_scope.

(** ** Outcomes of a call *)

Inductive outcome (A : Type) : Type :=
| Returned (a : A)
| Panicked.
Arguments Returned {A} a.
Arguments Panicked {A}.

(** ** [strings]: the helpers of Go's package that the code below calls *)

Module strings.

(** [strings.Cut(s, sep)] for a one-byte separator. *)
Fixpoint Cut (s : string) (sep : ascii) : string * string * bool :=
  match s with
  | EmptyString => (EmptyString, EmptyString, false)
  | String c s' =>
      if Ascii.eqb c sep then (EmptyString, s', true)
      else let '(before, after, found) := Cut s' sep in
           (String c before, after, found)
  end.

(** [strings.Count(s, sep)] for a one-byte separator. *)
Fixpoint Count (s : string) (sep : ascii) : nat :=
  match s with
  | EmptyString => 0
  | String c s' => (if Ascii.eqb c sep then 1 else 0) + Count s' sep
  end.

(** [strings.Contains(s, sep)] for a one-byte separator. *)
Definition Contains (s : string) (sep : ascii) : bool :=
  negb (Nat.eqb (Count s sep) 0).

Definition HasPrefix (s prefix : string) : bool := String.prefix prefix s.

Fixpoint HasSuffix1 (s : string) (c : ascii) : bool :=
  match s with
  | EmptyString => false
  | String d EmptyString => Ascii.eqb d c
  | String _ s' => HasSuffix1 s' c
  end.

(** [s[:len(s)-1]]. *)
Fixpoint drop_last (s : string) : string :=
  match s with
  | EmptyString => EmptyString
  | String _ EmptyString => EmptyString
  | String c s' => String c (drop_last s')
  end.

Definition lower (c : ascii) : ascii :=
  let n := nat_of_ascii c in
  if (65 <=? n)%nat && (n <=? 90)%nat then ascii_of_nat (n + 32) else c.

(** [strings.ToLower] on the bytes of an ASCII string. *)
Fixpoint ToLower (s : string) : string :=
  match s with
  | EmptyString => EmptyString
  | String c s' => String (lower c) (ToLower s')
  end.

End strings.

(** ** Results of fallible calls: Go's [(value, error)] pairs, of which the
    code always fills exactly one side *)

Inductive result (E A : Type) : Type :=
| Ok (a : A)
| Err (e : E).
Arguments Ok {E A} a.
Arguments Err {E A} e.

Definition is_Err {E A} (r : result E A) : bool :=
  match r with Err _ => true | Ok _ => false end.

(** ** [net/url]: [url.Parse]

    [NewService] decides whether a service is created by the error of
    [url.Parse].  The definitions follow the library's [Parse], [parse],
    [getScheme] and [unescape] (for paths and fragments); the grammar of the
    authority component ([user@host:port]), which differs between Go
    releases, is the parameter [parseAuthority].  Of the parsed [URL] the
    decoded components are kept; the re-encoding hints that only
    [URL.String] reads are not. *)

Module url.

Inductive error : Type :=
| InvalidControlCharacter
| MissingProtocolScheme
| FirstPathSegmentColon
| EscapeError (s : string)
| AuthorityError.

Record Userinfo : Type := { username : string; password : option string }.

Record URL : Type := {
  Scheme : string;
  Opaque : string;
  User : option Userinfo;
  Host : string;
  Path : string;
  RawQuery : string;
  Fragment : string
}.

(** [parseAuthority authority]: the user and host of an authority component,
    or [None] when the library rejects it. *)
Class Authority : Type :=
  { parseAuthority : string → option (option Userinfo * string) }.

Definition byte_in (lo hi : nat) (c : ascii) : bool :=
  let n := nat_of_ascii c in (lo <=? n)%nat && (n <=? hi)%nat.

Definition is_letter (c : ascii) : bool := byte_in 97 122 c || byte_in 65 90 c.
Definition is_digit (c : ascii) : bool := byte_in 48 57 c.

(** A byte below [' '] or [0x7f]. *)
Fixpoint stringContainsCTLByte (s : string) : bool :=
  match s with
  | EmptyString => false
  | String c s' =>
      (nat_of_ascii c <? 32)%nat || (nat_of_ascii c =? 127)%nat
      || stringContainsCTLByte s'
  end.

Definition ishex (c : ascii) : bool :=
  is_digit c || byte_in 97 102 c || byte_in 65 70 c.

Definition unhex (c : ascii) : nat :=
  let n := nat_of_ascii c in
  if is_digit c then n - 48
  else if byte_in 97 102 c then n - 97 + 10
  else if byte_in 65 70 c then n - 65 + 10
  else 0.

(** [unescape(s, encodePath)] and [unescape(s, encodeFragment)]: every ['%']
    must start a two-digit hexadecimal escape, which is decoded; the error
    carries the (at most three) bytes of the first bad escape. *)
Fixpoint unescape (s : string) : result error string :=
  match s with
  | EmptyString => Ok EmptyString
  | String c rest =>
      if Ascii.eqb c "%" then
        match rest with
        | String a (String b rest') =>
            if ishex a && ishex b then
              match unescape rest' with
              | Ok t => Ok (String (ascii_of_nat (16 * unhex a + unhex b)) t)
              | Err e => Err e
              end
            else Err (EscapeError (substring 0 3 s))
        | _ => Err (EscapeError (substring 0 3 s))
        end
      else
        match unescape rest with
        | Ok t => Ok (String c t)
        | Err e => Err e
        end
  end.

(** [getScheme]: [i] is the index of the first byte of [s] in [rawURL]. *)
Fixpoint getScheme_from (rawURL : string) (i : nat) (s : string)
  : result error (string * string) :=
  match s with
  | EmptyString => Ok (EmptyString, rawURL)
  | String c s' =>
      if is_letter c then getScheme_from rawURL (S i) s'
      else if is_digit c || Ascii.eqb c "+" || Ascii.eqb c "-" || Ascii.eqb c "." then
        if (i =? 0)%nat then Ok (EmptyString, rawURL)
        else getScheme_from rawURL (S i) s'
      else if Ascii.eqb c ":" then
        if (i =? 0)%nat then Err MissingProtocolScheme
        else Ok (substring 0 i rawURL, s')
      else Ok (EmptyString, rawURL)
  end.

Definition getScheme (rawURL : string) : result error (string * string) :=
  getScheme_from rawURL 0 rawURL.

(** [u.setPath(p)]. *)
Definition setPath (u : URL) (p : string) : result error URL :=
  match unescape p with
  | Ok path =>
      Ok {| Scheme := Scheme u; Opaque := Opaque u; User := User u;
            Host := Host u; Path := path; RawQuery := RawQuery u;
            Fragment := Fragment u |}
  | Err e => Err e
  end.

(** [u.setFragment(f)]. *)
Definition setFragment (u : URL) (f : string) : result error URL :=
  match unescape f with
  | Ok frag =>
      Ok {| Scheme := Scheme u; Opaque := Opaque u; User := User u;
            Host := Host u; Path := Path u; RawQuery := RawQuery u;
            Fragment := frag |}
  | Err e => Err e
  end.

(** [parse(rawURL, false)]: the library's [parse] as [Parse] calls it. *)
Definition parse `{Authority} (rawURL : string) : result error URL :=
  if stringContainsCTLByte rawURL then Err InvalidControlCharacter
  else if String.eqb rawURL "*" then
    Ok {| Scheme := ""; Opaque := ""; User := None; Host := ""; Path := "*";
          RawQuery := ""; Fragment := "" |}
  else
    match getScheme rawURL with
    | Err e => Err e
    | Ok (scheme, rest) =>
        let scheme := strings.ToLower scheme in
        let '(rest, rawquery) :=
          if strings.HasSuffix1 rest "?" && (strings.Count rest "?" =? 1)%nat
          then (strings.drop_last rest, EmptyString)
          else let '(r, q, _) := strings.Cut rest "?" in (r, q) in
        let u := {| Scheme := scheme; Opaque := ""; User := None; Host := "";
                    Path := ""; RawQuery := rawquery; Fragment := "" |} in
        if negb (strings.HasPrefix rest "/") && negb (String.eqb scheme "") then
          (* a rootless path after a scheme is opaque *)
          Ok {| Scheme := scheme; Opaque := rest; User := None; Host := "";
                Path := ""; RawQuery := rawquery; Fragment := "" |}
        else if negb (strings.HasPrefix rest "/")
                && strings.Contains (strings.Cut rest "/").1.1 ":" then
          Err FirstPathSegmentColon
        else if (negb (String.eqb scheme "") || negb (strings.HasPrefix rest "///"))
                && strings.HasPrefix rest "//" then
          let authority := substring 2 (String.length rest - 2) rest in
          let '(authority, rest) :=
            let '(before, after, found) := strings.Cut authority "/" in
            if found then (before, String "/" after) else (authority, EmptyString) in
          match parseAuthority authority with
          | None => Err AuthorityError
          | Some (user, host) =>
              setPath {| Scheme := scheme; Opaque := ""; User := user;
                         Host := host; Path := ""; RawQuery := rawquery;
                         Fragment := "" |} rest
          end
        else setPath u rest
    end.

(** [url.Parse(rawURL)]: the fragment is cut off and parsed apart. *)
Definition Parse `{Authority} (rawURL : string) : result error URL :=
  let '(u, frag, _) := strings.Cut rawURL "#" in
  match parse u with
  | Err e => Err e
  | Ok url => if String.eqb frag "" then Ok url else setFragment url frag
  end.

(** [u.IsAbs()]. *)
Definition IsAbs (u : URL) : bool := negb (String.eqb (Scheme u) "").

End url.

(** ** Package [proxy] (proxy/proxy.go) *)

Module proxy.

(** The errors the package builds: [NewService]'s
    ["Service URL invalid" + err.Error()], where [err] is [url.Parse]'s
    error for the given text. *)
Inductive error : Type :=
| ServiceURLInvalid (Url : string) (e : url.error).

(** [httputil.NewSingleHostReverseProxy(target)]: a reverse proxy is known by
    the target it relays to. *)
Record ReverseProxy_t : Type := { target : url.URL }.

Definition NewSingleHostReverseProxy (target : url.URL) : ReverseProxy_t :=
  {| target := target |}.

(** [type Service struct]; the embedded [*httputil.ReverseProxy] is a pointer
    and is nil in a [Service] literal that does not set it. *)
Record Service : Type := {
  Name : string;
  ReverseProxy : option ReverseProxy_t;
  Path : string;
  Url : string
}.

Definition NewService `{url.Authority} (name Path Url : string)
  : result error Service :=
  match url.Parse Url with
  | Err err => Err (ServiceURLInvalid Url err)
  | Ok ServiceURL =>
      Ok {| Name := name;
            Path := Path;
            Url := Url;
            ReverseProxy := Some (NewSingleHostReverseProxy ServiceURL) |}
  end.

(** *** Requests and responses ([net/http]) *)

(** Of a request, what the handlers read: [r.URL.Path], and the method. *)
Record Request : Type := { Method : string; URL_Path : string }.

(** An [http.ResponseWriter]: the status line once written, and the body. *)
Record ResponseWriter : Type := {
  wroteHeader : bool;
  status : nat;
  body : string
}.

Definition StatusOK : nat := 200.

(** [w.Write(b)]: the first write sends the header with status 200 unless
    [WriteHeader] was called before. *)
Definition Write (w : ResponseWriter) (b : string) : ResponseWriter :=
  {| wroteHeader := true;
     status := if wroteHeader w then status w else StatusOK;
     body := body w ++ b |}.

(** A response writer nothing was written to. *)
Definition new_ResponseWriter : ResponseWriter :=
  {| wroteHeader := false; status := 0; body := "" |}.

(** What serving one request comes to: the request is handed to the reverse
    proxy of a target, which relays it upstream, or the handler has written
    the response itself, or it panicked. *)
Inductive served : Type :=
| Forwarded (target : url.URL) (w : ResponseWriter) (r : Request)
| Replied (w : ResponseWriter)
| HandlerPanicked.

(** [service.ServeHTTP(w, r)], the method promoted from the embedded
    [*httputil.ReverseProxy]; it dereferences the pointer. *)
Definition ServeHTTP (service : Service) (w : ResponseWriter) (r : Request) : served :=
  match ReverseProxy service with
  | Some p => Forwarded (target p) w r
  | None => HandlerPanicked
  end.

(** *** [http.ServeMux]

    Of the multiplexer, the patterns registered so far, the newest first;
    every one of them is bound to the closure that [AddProxy] builds for it
    ([handler] below).  [HandleFunc] panics when the multiplexer does not
    accept the pattern; it never accepts the empty pattern. *)
Class ServeMuxRules : Type := {
  accepts : list string → string → bool;
  accepts_empty : ∀ registered, accepts registered "" = false
}.

Definition HandleFunc `{ServeMuxRules} (mux : list string) (pattern : string)
  : outcome (list string) :=
  if accepts mux pattern then Returned (pattern :: mux) else Panicked.

(** *** [RuntimeMux] *)

Record RuntimeMux : Type := {
  mux : list string;
  proxyServers : gmap string (option Service);
  FallbackHandler : ResponseWriter → Request → ResponseWriter
}.

Definition GetMux (ph : RuntimeMux) : list string := mux ph.

(** The function literal that [NewRuntimeMux] stores in [FallbackHandler]. *)
Definition fallback (w : ResponseWriter) (r : Request) : ResponseWriter :=
  Write w ("fallback: Path not found" ++ URL_Path r).

Definition NewRuntimeMux : RuntimeMux :=
  {| mux := [];
     proxyServers := ∅;
     FallbackHandler := fallback |}.

(** The closure that [AddProxy] registers for [path]: it reads the table of
    the [RuntimeMux] as it is when the request is served. *)
Definition handler (path : string) (ph : RuntimeMux)
  (w : ResponseWriter) (r : Request) : served :=
  match proxyServers ph !! path with
  | Some (Some service) => ServeHTTP service w r
  | _ => Replied (FallbackHandler ph w r)
  end.

Definition set_proxyServers (ph : RuntimeMux)
  (m : gmap string (option Service)) : RuntimeMux :=
  {| mux := mux ph; proxyServers := m; FallbackHandler := FallbackHandler ph |}.

Definition set_mux (ph : RuntimeMux) (l : list string) : RuntimeMux :=
  {| mux := l; proxyServers := proxyServers ph;
     FallbackHandler := FallbackHandler ph |}.

(** [ph.AddProxy(Service)].  [Service.Path] panics on a nil pointer, before
    anything is written; the table is written before [HandleFunc] is called,
    so a panic of [HandleFunc] leaves the new entry in it. *)
Definition AddProxy `{ServeMuxRules} (ph : RuntimeMux) (Service : option Service)
  : RuntimeMux * outcome (option error) :=
  match Service with
  | None => (ph, Panicked)
  | Some s =>
      let exists_ := bool_decide (is_Some (proxyServers ph !! Path s)) in
      let ph := set_proxyServers ph (<[Path s := Some s]> (proxyServers ph)) in
      let path := Path s in
      if negb exists_ then
        match HandleFunc (mux ph) path with
        | Returned mux' => (set_mux ph mux', Returned None)
        | Panicked => (ph, Panicked)
        end
      else (ph, Returned None)
  end.

(** [ph.removeHandler(Service)]. *)
Definition removeHandler (ph : RuntimeMux) (Service : option Service)
  : RuntimeMux * outcome unit :=
  match Service with
  | None => (ph, Panicked)
  | Some s =>
      (set_proxyServers ph (<[Path s := None]> (proxyServers ph)), Returned tt)
  end.

(** *** The console ([CLI]): the two branches that write the table

    [args] is [strings.Fields] of the line, with the verb at its head; what
    a branch prints is a [message]. *)
Inductive message : Type :=
| UsageAdd
| ErrorCreatingService (err : error)
| ErrorAddingProxy (err : error)
| AddedService (name path : string)
| UsageRemove
| RemovedService (path : string)
| NoServiceFound (path : string).

(** [case "add":] *)
Definition CLI_add `{url.Authority} `{ServeMuxRules}
  (ph : RuntimeMux) (args : list string) : RuntimeMux * outcome message :=
  match args with
  | [_; name; path; Url] =>
      match NewService name path Url with
      | Err err => (ph, Returned (ErrorCreatingService err))
      | Ok service =>
          match AddProxy ph (Some service) with
          | (ph', Returned (Some err)) => (ph', Returned (ErrorAddingProxy err))
          | (ph', Returned None) => (ph', Returned (AddedService name path))
          | (ph', Panicked) => (ph', Panicked)
          end
      end
  | _ => (ph, Returned UsageAdd)
  end.

(** [case "remove":] the stored pointer, nil when the entry is a tombstone,
    is what [removeHandler] receives. *)
Definition CLI_remove (ph : RuntimeMux) (args : list string)
  : RuntimeMux * outcome message :=
  match args with
  | [_; path] =>
      match proxyServers ph !! path with
      | Some service =>
          match removeHandler ph service with
          | (ph', Returned _) => (ph', Returned (RemovedService path))
          | (ph', Panicked) => (ph', Panicked)
          end
      | None => (ph, Returned (NoServiceFound path))
      end
  | _ => (ph, Returned UsageRemove)
  end.

(** *** Sequences of table operations *)

Inductive op : Type :=
| OpAddProxy (Service : option Service)
| OpRemoveHandler (Service : option Service).

Definition step `{ServeMuxRules} (ph : RuntimeMux) (o : op) : RuntimeMux :=
  match o with
  | OpAddProxy s => (AddProxy ph s).1
  | OpRemoveHandler s => (removeHandler ph s).1
  end.

Definition run `{ServeMuxRules} (ph : RuntimeMux) (ops : list op) : RuntimeMux :=
  foldl step ph ops.

(** The prefix an operation writes, if it gets to write. *)
Definition op_path (o : op) : option string :=
  match o with
  | OpAddProxy s | OpRemoveHandler s => Path <$> s
  end.

(** The states a program reaches from [NewRuntimeMux ()] by calls of
    [AddProxy] and [removeHandler]. *)
Definition reachable `{ServeMuxRules} (ph : RuntimeMux) : Prop :=
  ∃ ops, ph = run NewRuntimeMux ops.

(** The entry points and the table: every installed prefix is a key of the
    table, and no prefix is installed twice. *)
Definition bindings_ok (ph : RuntimeMux) : Prop :=
  (∀ path, path ∈ mux ph → path ∈ dom (proxyServers ph)) ∧ NoDup (mux ph).

(** The live backend of a prefix, as the handler and the tests read it
    ([exists && service != nil]). *)
Definition live_backend (ph : RuntimeMux) (path : string) : option Service :=
  match proxyServers ph !! path with
  | Some (Some service) => Some service
  | _ => None
  end.

(** Every live entry is stored under its own [Path]. *)
Definition keys_ok (ph : RuntimeMux) : Prop :=
  ∀ path service, proxyServers ph !! path = Some (Some service) →
                  Path service = path.

(** *** [PrintPaths]

    The sequences in which [for _, service := range ph.proxyServers] may walk
    the table, and what the walk prints: the frame and, for every entry that
    is not nil, the JSON of the service ([service.Json()], whose text is not
    spelled out here). *)
Definition range_of (m : gmap string (option Service))
  (it : list (string * option Service)) : Prop :=
  it ≡ₚ map_to_list m.

Inductive line : Type :=
| ServicesHeader
| ServiceJson (service : Service)
| ServicesFooter.

Definition PrintPaths (ph : RuntimeMux) (it : list (string * option Service))
  : list line :=
  ServicesHeader :: (ServiceJson <$> omap snd it) ++ [ServicesFooter].

(** *** [CLI]: the loop

    One scanned line is its [strings.Fields] and, for the case that it is a
    [list] command, the walk of the table that [PrintPaths] makes. *)
Inductive output : Type :=
| Banner
| AvailableCommands
| Prompt
| Say (m : message)
| Listing (lines : list line)
| UnknownCommand.

Inductive control : Type := Continue | Exit.

(** The body of the loop after [args := strings.Fields(cmd)]: the [switch]
    on [args[0]]. *)
Definition CLI_command `{url.Authority} `{ServeMuxRules}
  (ph : RuntimeMux) (it : list (string * option Service)) (args : list string)
  : RuntimeMux * outcome (list output * control) :=
  match args with
  | [] => (ph, Returned ([], Continue))
  | verb :: _ =>
      if String.eqb verb "add" then
        match CLI_add ph args with
        | (ph', Returned m) => (ph', Returned ([Say m], Continue))
        | (ph', Panicked) => (ph', Panicked)
        end
      else if String.eqb verb "remove" then
        match CLI_remove ph args with
        | (ph', Returned m) => (ph', Returned ([Say m], Continue))
        | (ph', Panicked) => (ph', Panicked)
        end
      else if String.eqb verb "list" then
        (ph, Returned ([Listing (PrintPaths ph it)], Continue))
      else if String.eqb verb "exit" then
        (ph, Returned ([], Exit))
      else (ph, Returned ([UnknownCommand], Continue))
  end.

(** [for { fmt.Print("> "); if !scanner.Scan() { break }; ... }] over the
    lines that the scanner yields. *)
Fixpoint CLI_loop `{url.Authority} `{ServeMuxRules} (ph : RuntimeMux)
  (lines : list (list string * list (string * option Service)))
  : RuntimeMux * list output * outcome unit :=
  match lines with
  | [] => (ph, [Prompt], Returned tt)
  | (args, it) :: rest =>
      match CLI_command ph it args with
      | (ph', Returned (out, Continue)) =>
          let '(ph'', outs, r) := CLI_loop ph' rest in
          (ph'', Prompt :: out ++ outs, r)
      | (ph', Returned (out, Exit)) => (ph', Prompt :: out, Returned tt)
      | (ph', Panicked) => (ph', [Prompt], Panicked)
      end
  end.

Definition CLI `{url.Authority} `{ServeMuxRules} (ph : RuntimeMux)
  (lines : list (list string * list (string * option Service)))
  : RuntimeMux * list output * outcome unit :=
  let '(ph', outs, r) := CLI_loop ph lines in
  (ph', Banner :: AvailableCommands :: outs, r).

End proxy.

(** ** Package [main] (main.go): [setupProxies] *)

Module main.

Record service_entry : Type := { name : string; path : string; url : string }.

(** The [services] literal of [setupProxies]. *)
Definition services : list service_entry :=
  [ {| name := "CodeVis"; path := "/wordsweave"; url := "https://words-weave.com/" |} ].

(** [for _, s := range services { ... }]: the first error is returned, with
    what was registered before it left in place. *)
Fixpoint setupProxies_range `{url.Authority} `{proxy.ServeMuxRules}
  (services : list service_entry) (proxyProjects : proxy.RuntimeMux)
  : proxy.RuntimeMux * outcome (option proxy.error) :=
  match services with
  | [] => (proxyProjects, Returned None)
  | s :: rest =>
      match proxy.NewService (name s) (path s) (url s) with
      | Err err => (proxyProjects, Returned (Some err))
      | Ok service =>
          match proxy.AddProxy proxyProjects (Some service) with
          | (ph, Returned (Some err)) => (ph, Returned (Some err))
          | (ph, Returned None) => setupProxies_range rest ph
          | (ph, Panicked) => (ph, Panicked)
          end
      end
  end.

Definition setupProxies `{url.Authority} `{proxy.ServeMuxRules}
  (proxyProjects : proxy.RuntimeMux)
  : proxy.RuntimeMux * outcome (option proxy.error) :=
  setupProxies_range services proxyProjects.

End main.

(** ** Package [ssl]: the certificate manager *)

Module ssl.

(** [fmt.Errorf] of the package, with the library's error text inside. *)
Inductive error : Type :=
| FailedToLoadCertificate (err : string)
| FailedToParseCertificate (err : string)
| NoCertificateFound (ServerName : string)
| FailedToLoadInitialCertificate (err : error).

(** [tls.Certificate]: the chain of DER blocks, leaf first, and the key. *)
Record tls_Certificate : Type := {
  Certificate : list string;
  PrivateKey : string
}.

(** [x509.Certificate], the fields that are read. *)
Record x509_Certificate : Type := {
  DNSNames : list string;
  Subject_CommonName : string
}.

(** [crypto/tls] and [crypto/x509] over the files on disk at the time of a
    call.  [tls.LoadX509KeyPair] fails when the certificate file holds no
    certificate block, so a pair it returns has a leaf. *)
Class CryptoTLS : Type := {
  LoadX509KeyPair : string → string → result string tls_Certificate;
  ParseCertificate : string → result string x509_Certificate;
  LoadX509KeyPair_leaf : ∀ certFile keyFile cert,
    LoadX509KeyPair certFile keyFile = Ok cert → Certificate cert ≠ []
}.

Record CertManager : Type := {
  certs : gmap string tls_Certificate;
  certFile : string;
  keyFile : string
}.

Record ClientHelloInfo : Type := { ServerName : string }.

Definition set_certs (cm : CertManager) (m : gmap string tls_Certificate)
  : CertManager :=
  {| certs := m; certFile := certFile cm; keyFile := keyFile cm |}.

(** The key under which [loadCertificate] stores a parsed leaf. *)
Definition domain (x509Cert : x509_Certificate) : string :=
  match DNSNames x509Cert with
  | d :: _ => d
  | [] => Subject_CommonName x509Cert
  end.

(** [cm.loadCertificate()]: [None] is the nil error. *)
Definition loadCertificate `{CryptoTLS} (cm : CertManager)
  : CertManager * option error :=
  match LoadX509KeyPair (certFile cm) (keyFile cm) with
  | Err err => (cm, Some (FailedToLoadCertificate err))
  | Ok cert =>
      match Certificate cert with
      | leaf :: _ =>
          match ParseCertificate leaf with
          | Err err => (cm, Some (FailedToParseCertificate err))
          | Ok x509Cert =>
              (set_certs cm (<[domain x509Cert := cert]> (certs cm)), None)
          end
      | [] => (cm, None)
      end
  end.

Definition NewCertManager `{CryptoTLS} (certFile keyFile : string)
  : result error CertManager :=
  let cm := {| certs := ∅; certFile := certFile; keyFile := keyFile |} in
  match loadCertificate cm with
  | (_, Some err) => Err (FailedToLoadInitialCertificate err)
  | (cm, None) => Ok cm
  end.

(** The sequences in which [for _, cert := range cm.certs] may walk the map:
    every entry once, in an order the language leaves open. *)
Definition range_of (m : gmap string tls_Certificate)
  (it : list (string * tls_Certificate)) : Prop :=
  it ≡ₚ map_to_list m.

(** [cm.GetCertificate(clientHello)], with [it] the order in which the
    [range] loop of this call walks [cm.certs]. *)
Definition GetCertificate (cm : CertManager)
  (it : list (string * tls_Certificate)) (clientHello : ClientHelloInfo)
  : result error tls_Certificate :=
  match certs cm !! ServerName clientHello with
  | Some cert => Ok cert
  | None =>
      match it with
      | (_, cert) :: _ => Ok cert
      | [] => Err (NoCertificateFound (ServerName clientHello))
      end
  end.

End ssl.

(** ** Instances of the library parameters for the closed examples

    Each accepts only what every Go release accepts: patterns that are
    plain rooted paths not registered before, and authorities that are a
    host name with an optional decimal port. *)

Definition path_byte (c : ascii) : bool :=
  url.is_letter c || url.is_digit c
  || Ascii.eqb c "/" || Ascii.eqb c "-" || Ascii.eqb c "_" || Ascii.eqb c ".".

Definition host_byte (c : ascii) : bool :=
  url.is_letter c || url.is_digit c || Ascii.eqb c "-" || Ascii.eqb c ".".

Definition plain_path_accepts (registered : list string) (pattern : string) : bool :=
  strings.HasPrefix pattern "/"
  && forallb path_byte (list_ascii_of_string pattern)
  && negb (existsb (String.eqb pattern) registered).

Lemma plain_path_accepts_empty registered : plain_path_accepts registered "" = false.
Proof. reflexivity. Qed.

Definition plain_paths : proxy.ServeMuxRules :=
  {| proxy.accepts := plain_path_accepts;
     proxy.accepts_empty := plain_path_accepts_empty |}.

Definition host_port : url.Authority :=
  {| url.parseAuthority authority :=
       let '(host, port, _) := strings.Cut authority ":" in
       if forallb host_byte (list_ascii_of_string host)
          && forallb url.is_digit (list_ascii_of_string port)
       then Some (None, authority) else None |}.

(** A disk with one readable pair, for [example.com], and one pair whose
    certificate block is not a certificate. *)
Definition example_cert : ssl.tls_Certificate :=
  {| ssl.Certificate := ["der:example.com"]; ssl.PrivateKey := "key:example.com" |}.

Definition broken_cert : ssl.tls_Certificate :=
  {| ssl.Certificate := ["der:broken"]; ssl.PrivateKey := "key:broken" |}.

Definition example_load (certFile keyFile : string)
  : result string ssl.tls_Certificate :=
  if String.eqb certFile "cert.pem" && String.eqb keyFile "key.pem"
  then Ok example_cert
  else if String.eqb certFile "broken.pem" && String.eqb keyFile "key.pem"
  then Ok broken_cert
  else Err "open: no such file or directory".

Definition example_parse (der : string) : result string ssl.x509_Certificate :=
  if String.eqb der "der:example.com"
  then Ok {| ssl.DNSNames := ["example.com"]; ssl.Subject_CommonName := "example.com" |}
  else Err "x509: malformed certificate".

Lemma example_load_leaf certFile keyFile cert :
  example_load certFile keyFile = Ok cert → ssl.Certificate cert ≠ [].
Proof.
  unfold example_load.
  repeat case_match; intros [= <-]; discriminate.
Qed.

Definition example_disk : ssl.CryptoTLS :=
  {| ssl.LoadX509KeyPair := example_load;
     ssl.ParseCertificate := example_parse;
     ssl.LoadX509KeyPair_leaf := example_load_leaf |}.

(** ** Values of the closed examples *)

(** The service that [NewService name path ("http://" ++ host ++ "/")]
    builds. *)
Definition backend (name path host : string) : proxy.Service :=
  {| proxy.Name := name;
     proxy.Path := path;
     proxy.Url := "http://" ++ host ++ "/";
     proxy.ReverseProxy :=
       Some (proxy.NewSingleHostReverseProxy
               {| url.Scheme := "http"; url.Opaque := ""; url.User := None;
                  url.Host := host; url.Path := "/"; url.RawQuery := "";
                  url.Fragment := "" |}) |}.

Definition old_backend : proxy.Service := backend "test" "/test/" "127.0.0.1:8081".
Definition new_backend : proxy.Service := backend "test" "/test/" "127.0.0.1:8082".
Definition other_backend : proxy.Service := backend "api" "/api/v1/" "localhost:8081".

(** The literal [&Service{}]: no name, no path, no reverse proxy. *)
Definition zero_Service : proxy.Service :=
  {| proxy.Name := ""; proxy.ReverseProxy := None; proxy.Path := "";
     proxy.Url := "" |}.

Definition get (path : string) : proxy.Request :=
  {| proxy.Method := "GET"; proxy.URL_Path := path |}.

Definition cert_a : ssl.tls_Certificate :=
  {| ssl.Certificate := ["der:a.example"]; ssl.PrivateKey := "key:a.example" |}.

Definition cert_b : ssl.tls_Certificate :=
  {| ssl.Certificate := ["der:b.example"]; ssl.PrivateKey := "key:b.example" |}.

(** A manager that holds two certificates. *)
Definition two_certs : ssl.CertManager :=
  {| ssl.certs := <["a.example" := cert_a]> (<["b.example" := cert_b]> ∅);
     ssl.certFile := "cert.pem";
     ssl.keyFile := "key.pem" |}.

(** A manager before its first load. *)
Definition unloaded (certFile keyFile : string) : ssl.CertManager :=
  {| ssl.certs := ∅; ssl.certFile := certFile; ssl.keyFile := keyFile |}.

(** * The routing table *)

Section routing_table.
Import proxy.
Context `{!url.Authority} `{!ServeMuxRules}.

Implicit Types (ph : RuntimeMux) (s b : Service) (o : op) (ops : list op).

Lemma AddProxy_proxyServers ph s :
  proxyServers (AddProxy ph (Some s)).1 = <[Path s := Some s]> (proxyServers ph).
Proof.
  unfold AddProxy, HandleFunc.
  destruct (bool_decide _); simpl; [done|].
  destruct (accepts _ _); done.
Qed.

Lemma AddProxy_FallbackHandler ph (sp : option Service) :
  FallbackHandler (AddProxy ph sp).1 = FallbackHandler ph.
Proof.
  destruct sp as [s|]; [|done].
  unfold AddProxy, HandleFunc.
  destruct (bool_decide _); simpl; [done|].
  destruct (accepts _ _); done.
Qed.

Lemma AddProxy_registered ph s :
  is_Some (proxyServers ph !! Path s) →
  AddProxy ph (Some s)
  = (set_proxyServers ph (<[Path s := Some s]> (proxyServers ph)), Returned None).
Proof.
  intros Hs. unfold AddProxy. by rewrite bool_decide_eq_true_2.
Qed.

Lemma AddProxy_first ph s :
  proxyServers ph !! Path s = None →
  AddProxy ph (Some s)
  = let ph' := set_proxyServers ph (<[Path s := Some s]> (proxyServers ph)) in
    if accepts (mux ph) (Path s)
    then (set_mux ph' (Path s :: mux ph), Returned None)
    else (ph', Panicked).
Proof.
  intros Hs. unfold AddProxy, HandleFunc.
  rewrite bool_decide_eq_false_2; [|by rewrite Hs; intros [? ?]].
  simpl. by destruct (accepts _ _).
Qed.

Lemma removeHandler_proxyServers ph s :
  proxyServers (removeHandler ph (Some s)).1 = <[Path s := None]> (proxyServers ph).
Proof. done. Qed.

(** The table after one operation: the entry of the operation's prefix is
    written, unless the pointer is nil. *)
Lemma step_proxyServers ph o :
  proxyServers (step ph o)
  = match o with
    | OpAddProxy (Some s) => <[Path s := Some s]> (proxyServers ph)
    | OpRemoveHandler (Some s) => <[Path s := None]> (proxyServers ph)
    | _ => proxyServers ph
    end.
Proof.
  destruct o as [[s|]|[s|]]; simpl; try done.
  apply AddProxy_proxyServers.
Qed.

Lemma step_other ph o path :
  op_path o ≠ Some path →
  proxyServers (step ph o) !! path = proxyServers ph !! path.
Proof.
  intros Hne. rewrite step_proxyServers.
  destruct o as [[s|]|[s|]]; simpl in *; try done;
    apply lookup_insert_ne; congruence.
Qed.

Lemma run_other ph ops path :
  Forall (λ o, op_path o ≠ Some path) ops →
  proxyServers (run ph ops) !! path = proxyServers ph !! path.
Proof.
  intros Hall. revert ph.
  induction Hall as [|o ops Ho _ IH]; intros ph; [done|].
  simpl. rewrite IH. by apply step_other.
Qed.

Lemma step_FallbackHandler ph o :
  FallbackHandler (step ph o) = FallbackHandler ph.
Proof.
  destruct o as [sp|[s|]]; simpl; try done.
  apply AddProxy_FallbackHandler.
Qed.

Lemma run_FallbackHandler ph ops :
  FallbackHandler (run ph ops) = FallbackHandler ph.
Proof.
  revert ph. induction ops as [|o ops IH]; intros ph; [done|].
  simpl. rewrite IH. apply step_FallbackHandler.
Qed.

Lemma reachable_FallbackHandler ph :
  reachable ph → FallbackHandler ph = fallback.
Proof. intros [ops ->]. apply run_FallbackHandler. Qed.

Lemma step_dom ph o :
  dom (proxyServers ph) ⊆ dom (proxyServers (step ph o)).
Proof.
  rewrite step_proxyServers.
  destruct o as [[s|]|[s|]]; try done; rewrite dom_insert_L; set_solver.
Qed.

Lemma run_dom ph ops :
  dom (proxyServers ph) ⊆ dom (proxyServers (run ph ops)).
Proof.
  revert ph. induction ops as [|o ops IH]; intros ph; [done|].
  simpl. etrans; [apply (step_dom ph o)|apply IH].
Qed.

Lemma handler_live ph path s w r :
  proxyServers ph !! path = Some (Some s) →
  handler path ph w r = ServeHTTP s w r.
Proof. intros Hs. unfold handler. by rewrite Hs. Qed.

Lemma handler_not_live ph path w r :
  live_backend ph path = None →
  handler path ph w r = Replied (FallbackHandler ph w r).
Proof.
  unfold live_backend, handler.
  destruct (proxyServers ph !! path) as [[s|]|]; done.
Qed.

(** C1.  After [AddProxy b1] and then [AddProxy b2] for one prefix, every
    request dispatched to that prefix (also after later operations on other
    prefixes) is served by [b2]: forwarded to [b2]'s target, never to a
    different target of [b1].  The second registration returns success and
    replaces only the table entry; the first installs the entry point
    exactly when the prefix was not a key of the table. *)
Theorem AddProxy_last_write_wins ph (b1 b2 : Service) ops w r :
  Path b1 = Path b2 →
  Forall (λ o, op_path o ≠ Some (Path b2)) ops →
  let ph1 := (AddProxy ph (Some b1)).1 in
  let ph2 := (AddProxy ph1 (Some b2)).1 in
  let ph3 := run ph2 ops in
  handler (Path b2) ph3 w r = ServeHTTP b2 w r
  ∧ (∀ p2, ReverseProxy b2 = Some p2 →
       handler (Path b2) ph3 w r = Forwarded (target p2) w r)
  ∧ (∀ p1 p2, ReverseProxy b1 = Some p1 → ReverseProxy b2 = Some p2 →
       target p1 ≠ target p2 →
       handler (Path b2) ph3 w r ≠ Forwarded (target p1) w r)
  ∧ (AddProxy ph1 (Some b2)).2 = Returned None
  ∧ mux ph2 = mux ph1
  ∧ proxyServers ph2 = <[Path b2 := Some b2]> (proxyServers ph1)
  ∧ mux ph1 = (if bool_decide (is_Some (proxyServers ph !! Path b1)) then mux ph
               else if accepts (mux ph) (Path b1) then Path b1 :: mux ph
               else mux ph).
Proof.
  intros Hpath Hops ph1 ph2 ph3.
  assert (Hkey : is_Some (proxyServers ph1 !! Path b2)).
  { subst ph1. rewrite AddProxy_proxyServers, Hpath, lookup_insert_eq. eauto. }
  assert (Hadd : AddProxy ph1 (Some b2)
    = (set_proxyServers ph1 (<[Path b2 := Some b2]> (proxyServers ph1)),
       Returned None)) by by apply AddProxy_registered.
  assert (Hserved : handler (Path b2) ph3 w r = ServeHTTP b2 w r).
  { apply handler_live. subst ph3. rewrite run_other by done.
    subst ph2. rewrite AddProxy_proxyServers. apply lookup_insert_eq. }
  split_and!.
  - done.
  - intros p2 Hp2. rewrite Hserved. unfold ServeHTTP. by rewrite Hp2.
  - intros p1 p2 Hp1 Hp2 Hne. rewrite Hserved. unfold ServeHTTP.
    rewrite Hp2. intros [= Heq]. by apply Hne.
  - by rewrite Hadd.
  - subst ph2. by rewrite Hadd.
  - subst ph2. by rewrite Hadd.
  - subst ph1. unfold AddProxy, HandleFunc.
    destruct (bool_decide _); simpl; [done|].
    by destruct (accepts _ _).
Qed.

(** C2.  In every state reached from [NewRuntimeMux], a request dispatched
    to a prefix whose entry is absent or a tombstone gets the fallback
    response: status 200, with the request path at the end of the body. *)
Theorem handler_fallback ph path w r :
  reachable ph →
  proxyServers ph !! path = None ∨ proxyServers ph !! path = Some None →
  wroteHeader w = false →
  ∃ w', handler path ph w r = Replied w'
        ∧ status w' = 200
        ∧ body w' = body w ++ "fallback: Path not found" ++ URL_Path r.
Proof.
  intros Hreach Hentry Hw.
  exists (fallback w r). split_and!.
  - rewrite handler_not_live.
    + by rewrite reachable_FallbackHandler.
    + unfold live_backend. by destruct Hentry as [-> | ->].
  - unfold fallback, Write. simpl. by rewrite Hw.
  - done.
Qed.

(** C6, as the code has it.  [add] fails, and leaves the table as it is,
    when [url.Parse] rejects the text; a text that [url.Parse] accepts,
    whether or not it is an absolute URL, makes a service, which is
    registered under the given path. *)
Theorem CLI_add_url ph verb name path Url :
  (∀ err, url.Parse Url = Err err →
     NewService name path Url = Err (ServiceURLInvalid Url err)
     ∧ CLI_add ph [verb; name; path; Url]
       = (ph, Returned (ErrorCreatingService (ServiceURLInvalid Url err))))
  ∧ (∀ u, url.Parse Url = Ok u →
       let s := {| Name := name; Path := path; Url := Url;
                   ReverseProxy := Some (NewSingleHostReverseProxy u) |} in
       NewService name path Url = Ok s
       ∧ (CLI_add ph [verb; name; path; Url]).1 = (AddProxy ph (Some s)).1
       ∧ proxyServers (CLI_add ph [verb; name; path; Url]).1 !! path
         = Some (Some s)).
Proof.
  split.
  - intros err Herr. unfold CLI_add, NewService. by rewrite Herr.
  - intros u Hu s.
    assert (Hnew : NewService name path Url = Ok s)
      by (unfold NewService; by rewrite Hu).
    assert (Hcli : (CLI_add ph [verb; name; path; Url]).1 = (AddProxy ph (Some s)).1).
    { unfold CLI_add. rewrite Hnew.
      destruct (AddProxy ph (Some s)) as [ph' [[err|]|]]; done. }
    split_and!; [done|done|].
    rewrite Hcli, AddProxy_proxyServers. apply lookup_insert_eq.
Qed.

(** C7, as the code has it.  [AddProxy] validates nothing and never returns
    an error.  For a prefix that is a key of the table it returns success,
    whatever the prefix and the backend; for a new prefix it returns success
    when the multiplexer accepts the prefix as a pattern and panics when it
    does not, as for the empty prefix; on a nil pointer it panics. *)
Theorem AddProxy_outcome ph (sp : option Service) :
  (AddProxy ph sp).2
  = match sp with
    | None => Panicked
    | Some s =>
        if bool_decide (is_Some (proxyServers ph !! Path s)) then Returned None
        else if String.eqb (Path s) "" then Panicked
        else if accepts (mux ph) (Path s) then Returned None
        else Panicked
    end
  ∧ ∀ err, (AddProxy ph sp).2 ≠ Returned (Some err).
Proof.
  destruct sp as [s|]; [|done].
  unfold AddProxy, HandleFunc.
  destruct (bool_decide _); simpl; [done|].
  destruct (String.eqb_spec (Path s) "") as [-> | _].
  - by rewrite accepts_empty.
  - by destruct (accepts _ _).
Qed.

(** C8, as the code has it.  [removeHandler] for a prefix that is not a key
    of the table adds the key with a nil value.  Nothing else changes: the
    other entries, the live backend of every prefix, what every dispatched
    request gets, and the entry points.  The console's [remove] checks the
    key first and leaves the table as it is. *)
Theorem removeHandler_never_registered ph s :
  proxyServers ph !! Path s = None →
  let ph' := (removeHandler ph (Some s)).1 in
  (removeHandler ph (Some s)).2 = Returned tt
  ∧ proxyServers ph' = <[Path s := None]> (proxyServers ph)
  ∧ dom (proxyServers ph') = {[Path s]} ∪ dom (proxyServers ph)
  ∧ (∀ path, path ≠ Path s → proxyServers ph' !! path = proxyServers ph !! path)
  ∧ (∀ path, live_backend ph' path = live_backend ph path)
  ∧ (∀ path w r, handler path ph' w r = handler path ph w r)
  ∧ mux ph' = mux ph
  ∧ (∀ verb, CLI_remove ph [verb; Path s]
             = (ph, Returned (NoServiceFound (Path s)))).
Proof.
  intros Hnone ph'.
  assert (Hlive : ∀ path, live_backend ph' path = live_backend ph path).
  { intros path. unfold live_backend. subst ph'.
    rewrite removeHandler_proxyServers.
    destruct (decide (Path s = path)) as [<- | Hne].
    - by rewrite lookup_insert_eq, Hnone.
    - by rewrite lookup_insert_ne. }
  split_and!; try done.
  - subst ph'. rewrite removeHandler_proxyServers. apply dom_insert_L.
  - intros path Hne. subst ph'. rewrite removeHandler_proxyServers.
    by apply lookup_insert_ne.
  - intros path w r. specialize (Hlive path).
    unfold live_backend in Hlive. unfold handler.
    replace (FallbackHandler ph') with (FallbackHandler ph) by done.
    destruct (proxyServers ph' !! path) as [[s1|]|],
             (proxyServers ph !! path) as [[s2|]|]; congruence.
  - intros verb. unfold CLI_remove. by rewrite Hnone.
Qed.

(** What the added key does later: the first [AddProxy] for that prefix
    finds the key and installs no entry point. *)
Lemma removeHandler_then_AddProxy ph s :
  proxyServers ph !! Path s = None →
  let ph' := (removeHandler ph (Some s)).1 in
  AddProxy ph' (Some s)
  = (set_proxyServers ph (<[Path s := Some s]> (proxyServers ph)), Returned None)
  ∧ mux (AddProxy ph' (Some s)).1 = mux ph.
Proof.
  intros Hnone ph'.
  assert (Hadd : AddProxy ph' (Some s)
    = (set_proxyServers ph' (<[Path s := Some s]> (proxyServers ph')),
       Returned None)).
  { apply AddProxy_registered. subst ph'.
    rewrite removeHandler_proxyServers, lookup_insert_eq. eauto. }
  rewrite Hadd. split; [|done].
  subst ph'. unfold set_proxyServers. simpl.
  by rewrite insert_insert_eq.
Qed.

(** C10.  No sequence of [AddProxy] and [removeHandler] calls loses a key of
    [proxyServers]: [AddProxy] writes the service under its path,
    [removeHandler] writes nil under it, and neither deletes. *)
Theorem proxyServers_keys_kept ph ops :
  dom (proxyServers ph) ⊆ dom (proxyServers (run ph ops))
  ∧ (∀ s, proxyServers (AddProxy ph (Some s)).1 !! Path s = Some (Some s))
  ∧ (∀ s, proxyServers (removeHandler ph (Some s)).1 !! Path s = Some None).
Proof.
  split_and!.
  - apply run_dom.
  - intros s. rewrite AddProxy_proxyServers. apply lookup_insert_eq.
  - intros s. rewrite removeHandler_proxyServers. apply lookup_insert_eq.
Qed.

(** The console's [remove] on a tombstone hands the stored nil pointer to
    [removeHandler], which dereferences it. *)
Lemma CLI_remove_tombstone ph verb path :
  proxyServers ph !! path = Some None →
  CLI_remove ph [verb; path] = (ph, Panicked).
Proof. intros Hnil. unfold CLI_remove. by rewrite Hnil. Qed.

(** In every reachable state the entry points agree with the table. *)
Lemma step_bindings_ok ph o : bindings_ok ph → bindings_ok (step ph o).
Proof.
  intros [Hkeys Hnodup].
  assert (Hgrow : ∀ path entry (l : list string),
            (∀ p, p ∈ l → p = path ∨ p ∈ mux ph) →
            ∀ p, p ∈ l → p ∈ dom (<[path := entry]> (proxyServers ph))).
  { intros path entry l Hl p Hin. rewrite dom_insert_L.
    destruct (Hl p Hin) as [-> | Hp]; [set_solver|].
    apply elem_of_union_r. auto. }
  destruct o as [[s|]|[s|]]; try done; unfold step.
  - destruct (proxyServers ph !! Path s) as [entry|] eqn:Hentry.
    + rewrite AddProxy_registered by eauto.
      split; [|done]. apply Hgrow. auto.
    + rewrite AddProxy_first by done. cbv zeta.
      destruct (accepts _ _).
      * split.
        -- apply Hgrow. intros p Hin. by apply elem_of_cons in Hin.
        -- apply NoDup_cons. split; [|done].
           intros Hin. apply Hkeys, elem_of_dom in Hin.
           rewrite Hentry in Hin. by destruct Hin.
      * split; [|done]. apply Hgrow. auto.
  - split; [|done]. apply Hgrow. auto.
Qed.

Lemma reachable_bindings_ok ph : reachable ph → bindings_ok ph.
Proof.
  intros [ops ->].
  assert (Hrun : ∀ ph0, bindings_ok ph0 → bindings_ok (run ph0 ops)).
  { induction ops as [|o ops IH]; intros ph0 Hinv; [done|].
    simpl. by apply IH, step_bindings_ok. }
  apply Hrun. split; [|constructor].
  intros path Hin. by apply elem_of_nil in Hin.
Qed.

End routing_table.

(** * The certificate store *)

Section certificate_store.
Import ssl.
Context `{!CryptoTLS}.

Implicit Types (cm : CertManager) (it : list (string * tls_Certificate))
  (hello : ClientHelloInfo).

(** A walk of a map that has an entry starts with one of its entries. *)
Lemma range_of_nonempty (m : gmap string tls_Certificate) it :
  range_of m it → m ≠ ∅ →
  ∃ host cert rest, it = (host, cert) :: rest ∧ m !! host = Some cert.
Proof.
  unfold range_of. intros Hperm Hne.
  destruct it as [|[host cert] rest].
  - symmetry in Hperm. apply Permutation_nil_r, map_to_list_empty_iff in Hperm.
    done.
  - exists host, cert, rest. split; [done|].
    apply elem_of_map_to_list. rewrite <-Hperm. apply list_elem_of_here.
Qed.

Lemma range_of_empty (m : gmap string tls_Certificate) it :
  range_of m it → m = ∅ → it = [].
Proof.
  unfold range_of. intros Hperm ->.
  rewrite map_to_list_empty in Hperm. by apply Permutation_nil_r.
Qed.

Lemma loadCertificate_cases cm :
  loadCertificate cm
  = match LoadX509KeyPair (certFile cm) (keyFile cm) with
    | Err err => (cm, Some (FailedToLoadCertificate err))
    | Ok cert =>
        match Certificate cert with
        | leaf :: _ =>
            match ParseCertificate leaf with
            | Err err => (cm, Some (FailedToParseCertificate err))
            | Ok x509Cert =>
                (set_certs cm (<[domain x509Cert := cert]> (certs cm)), None)
            end
        | [] => (cm, None)
        end
    end.
Proof. done. Qed.

(** C3.  When the pair of files cannot be loaded, or the leaf of the loaded
    pair cannot be parsed, [loadCertificate] returns an error and the
    manager, with its map of certificates, is as it was. *)
Theorem loadCertificate_failure cm :
  (∃ err, LoadX509KeyPair (certFile cm) (keyFile cm) = Err err)
  ∨ (∃ cert leaf rest err,
       LoadX509KeyPair (certFile cm) (keyFile cm) = Ok cert
       ∧ Certificate cert = leaf :: rest
       ∧ ParseCertificate leaf = Err err) →
  (∃ e, loadCertificate cm = (cm, Some e))
  ∧ certs (loadCertificate cm).1 = certs cm.
Proof.
  rewrite loadCertificate_cases.
  intros [[err ->] | (cert & leaf & rest & err & -> & -> & ->)]; eauto.
Qed.

(** C4.  [GetCertificate] returns the certificate stored under the requested
    name when there is one; for any other name it returns a certificate of
    the store, without error, when the store is not empty; it returns the
    error exactly when the store is empty. *)
Theorem GetCertificate_resolve cm it hello :
  range_of (certs cm) it →
  (∀ cert, certs cm !! ServerName hello = Some cert →
     GetCertificate cm it hello = Ok cert)
  ∧ (certs cm !! ServerName hello = None → certs cm ≠ ∅ →
     ∃ host cert, certs cm !! host = Some cert
                  ∧ GetCertificate cm it hello = Ok cert)
  ∧ (is_Err (GetCertificate cm it hello) = true ↔ certs cm = ∅)
  ∧ (certs cm = ∅ →
     GetCertificate cm it hello = Err (NoCertificateFound (ServerName hello))).
Proof.
  intros Hrange. unfold GetCertificate. split_and!.
  - by intros cert ->.
  - intros -> Hne.
    destruct (range_of_nonempty _ _ Hrange Hne) as (host & cert & rest & -> & Hc).
    eauto.
  - destruct (certs cm !! ServerName hello) as [cert|] eqn:Hname.
    + split; [done|]. intros Hempty. by rewrite Hempty, lookup_empty in Hname.
    + destruct (decide (certs cm = ∅)) as [Hempty|Hne].
      * by rewrite (range_of_empty _ _ Hrange Hempty).
      * destruct (range_of_nonempty _ _ Hrange Hne) as (? & ? & ? & -> & _).
        done.
  - intros Hempty. rewrite (range_of_empty _ _ Hrange Hempty).
    by rewrite Hempty, lookup_empty.
Qed.

(** C5, as the code has it.  For a store that is not empty and a name with
    no entry, [GetCertificate] returns the certificate at which the walk of
    the map starts: one of the store, the same for two calls whose walks
    start alike, and always the same when the store holds one certificate.
    No order of the names decides it. *)
Theorem GetCertificate_fallback cm it hello :
  range_of (certs cm) it →
  certs cm ≠ ∅ →
  certs cm !! ServerName hello = None →
  ∃ host cert rest,
    it = (host, cert) :: rest
    ∧ certs cm !! host = Some cert
    ∧ GetCertificate cm it hello = Ok cert
    ∧ (∀ it', head it' = head it → GetCertificate cm it' hello = Ok cert)
    ∧ (size (certs cm) = 1 →
       ∀ it', range_of (certs cm) it' → GetCertificate cm it' hello = Ok cert).
Proof.
  intros Hrange Hne Hname.
  destruct (range_of_nonempty _ _ Hrange Hne) as (host & cert & rest & -> & Hc).
  exists host, cert, rest. unfold GetCertificate. rewrite Hname.
  split_and!; try done.
  - intros [|[host' cert'] rest']; simpl; [done|]. by intros [= _ ->].
  - intros Hsize it' Hrange'.
    assert (Hlen : List.length ((host, cert) :: rest) = 1)
      by by rewrite Hrange, length_map_to_list.
    destruct rest; [|done].
    unfold range_of in *. rewrite <-Hrange in Hrange'.
    by apply Permutation_singleton_r in Hrange' as ->.
Qed.

(** C9.  A call of [loadCertificate] that returns no error has written one
    entry of the map: the loaded pair, under the first DNS name of its leaf
    or, when the leaf has none, under its common name.  The entries of all
    other names are as before, the entry written is in the map, and
    [GetCertificate] for that name returns the loaded pair. *)
Theorem loadCertificate_success cm cm' :
  loadCertificate cm = (cm', None) →
  ∃ cert leaf rest x509Cert,
    LoadX509KeyPair (certFile cm) (keyFile cm) = Ok cert
    ∧ Certificate cert = leaf :: rest
    ∧ ParseCertificate leaf = Ok x509Cert
    ∧ let key := match DNSNames x509Cert with
                 | first :: _ => first
                 | [] => Subject_CommonName x509Cert
                 end in
      certs cm' = <[key := cert]> (certs cm)
      ∧ certs cm' !! key = Some cert
      ∧ (∀ host, host ≠ key → certs cm' !! host = certs cm !! host)
      ∧ (∀ it, GetCertificate cm' it {| ServerName := key |} = Ok cert)
      ∧ certFile cm' = certFile cm
      ∧ keyFile cm' = keyFile cm.
Proof.
  rewrite loadCertificate_cases.
  destruct (LoadX509KeyPair _ _) as [cert|err] eqn:Hload; [|done].
  destruct (Certificate cert) as [|leaf rest] eqn:Hchain.
  { by apply LoadX509KeyPair_leaf in Hload. }
  destruct (ParseCertificate leaf) as [x509Cert|err] eqn:Hparse; [|done].
  intros [= <-]. exists cert, leaf, rest, x509Cert.
  fold (domain x509Cert). simpl. split_and!; try done.
  - apply lookup_insert_eq.
  - intros host Hne. by apply lookup_insert_ne.
  - intros it. unfold GetCertificate. simpl. by rewrite lookup_insert_eq.
Qed.

(** A manager that [NewCertManager] returned holds a certificate, so its
    [GetCertificate] never fails. *)
Lemma NewCertManager_serves certFile keyFile cm it hello :
  NewCertManager certFile keyFile = Ok cm →
  range_of (certs cm) it →
  certs cm ≠ ∅ ∧ is_Err (GetCertificate cm it hello) = false.
Proof.
  unfold NewCertManager. rewrite loadCertificate_cases. simpl.
  destruct (LoadX509KeyPair _ _) as [cert|err] eqn:Hload; [|done].
  destruct (Certificate cert) as [|leaf rest] eqn:Hchain.
  { by apply LoadX509KeyPair_leaf in Hload. }
  destruct (ParseCertificate leaf) as [x509Cert|err]; [|done].
  intros [= <-] Hrange. simpl in *.
  assert (Hne : <[domain x509Cert := cert]> (∅ : gmap string tls_Certificate) ≠ ∅)
    by apply insert_non_empty.
  split; [done|].
  unfold GetCertificate. simpl.
  destruct (_ !! ServerName hello); [done|].
  by destruct (range_of_nonempty _ _ Hrange Hne) as (? & ? & ? & -> & _).
Qed.

End certificate_store.

(** * The routing table: invariants and composition *)

Section routing_table_more.
Import proxy.
Context `{!url.Authority} `{!ServeMuxRules}.

Implicit Types (ph : RuntimeMux) (s : Service) (o : op) (ops : list op).

Lemma run_app ph ops1 ops2 : run ph (ops1 ++ ops2) = run (run ph ops1) ops2.
Proof. apply foldl_app. Qed.

Lemma run_bindings_ok ph ops : bindings_ok ph → bindings_ok (run ph ops).
Proof.
  revert ph. induction ops as [|o ops IH]; intros ph Hinv; [done|].
  simpl. by apply IH, step_bindings_ok.
Qed.

Lemma NewRuntimeMux_bindings_ok : bindings_ok NewRuntimeMux.
Proof.
  split; [|constructor]. intros path Hin. by apply elem_of_nil in Hin.
Qed.

Lemma step_keys_ok ph o : keys_ok ph → keys_ok (step ph o).
Proof.
  intros Hkeys path service. rewrite step_proxyServers.
  destruct o as [[s|]|[s|]]; try apply Hkeys.
  - destruct (decide (Path s = path)) as [<- | Hne].
    + rewrite lookup_insert_eq. by intros [= <-].
    + rewrite lookup_insert_ne by done. apply Hkeys.
  - destruct (decide (Path s = path)) as [<- | Hne].
    + by rewrite lookup_insert_eq.
    + rewrite lookup_insert_ne by done. apply Hkeys.
Qed.

Lemma run_keys_ok ph ops : keys_ok ph → keys_ok (run ph ops).
Proof.
  revert ph. induction ops as [|o ops IH]; intros ph Hinv; [done|].
  simpl. by apply IH, step_keys_ok.
Qed.

Lemma step_mux ph o :
  mux (step ph o) = mux ph
  ∨ ∃ s, o = OpAddProxy (Some s) ∧ proxyServers ph !! Path s = None
         ∧ mux (step ph o) = Path s :: mux ph.
Proof.
  destruct o as [[s|]|[s|]]; try by left. unfold step.
  destruct (proxyServers ph !! Path s) as [entry|] eqn:Hentry.
  - left. by rewrite AddProxy_registered by eauto.
  - rewrite AddProxy_first by done. cbv zeta.
    destruct (accepts _ _); [right|left]; eauto.
Qed.

(** X1.  In every state reached from [NewRuntimeMux], the prefix of every
    installed entry point is a key of the table and no prefix is installed
    twice; a prefix that is not a key has no entry point, so [AddProxy]
    never hands [HandleFunc] a pattern that is registered already. *)
Theorem entry_points_once ph :
  reachable ph →
  (∀ path, path ∈ mux ph → is_Some (proxyServers ph !! path))
  ∧ NoDup (mux ph)
  ∧ (∀ s, proxyServers ph !! Path s = None → Path s ∉ mux ph).
Proof.
  intros [ops ->].
  destruct (run_bindings_ok NewRuntimeMux ops NewRuntimeMux_bindings_ok)
    as [Hkeys Hnodup].
  split_and!; [|done|].
  - intros path Hin. by apply elem_of_dom, Hkeys.
  - intros s Hnone Hin. apply Hkeys, elem_of_dom in Hin.
    rewrite Hnone in Hin. by destruct Hin.
Qed.

(** X2.  In every state reached from [NewRuntimeMux], a live entry is stored
    under the [Path] of its service. *)
Theorem live_entry_under_own_path ph path service :
  reachable ph →
  proxyServers ph !! path = Some (Some service) →
  Path service = path.
Proof.
  intros [ops ->]. apply run_keys_ok. intros p sv Hp.
  simpl in Hp. by rewrite lookup_empty in Hp.
Qed.

(** X3.  Entry points are never taken away: after any sequence of
    operations the installed prefixes are those of before, with new ones in
    front. *)
Theorem entry_points_kept ph ops :
  ∃ added, mux (run ph ops) = (added ++ mux ph)%list.
Proof.
  revert ph. induction ops as [|o ops IH]; intros ph; [by exists []|].
  simpl. destruct (IH (step ph o)) as [added ->].
  destruct (step_mux ph o) as [-> | (s & _ & _ & ->)].
  - by exists added.
  - exists (added ++ [Path s])%list. by rewrite <-app_assoc.
Qed.

(** X4.  A prefix that is a key of the table without an entry point (its
    first write was a [removeHandler], or [HandleFunc] panicked on it) never
    gets one, whatever is registered later. *)
Theorem entry_point_never_installed ph path ops :
  is_Some (proxyServers ph !! path) →
  path ∉ mux ph →
  path ∉ mux (run ph ops).
Proof.
  revert ph. induction ops as [|o ops IH]; intros ph Hkey Hmux; [done|].
  simpl. apply IH.
  - apply elem_of_dom. apply (step_dom ph o). by apply elem_of_dom.
  - destruct (step_mux ph o) as [-> | (s & _ & Hnone & ->)]; [done|].
    intros [-> | Hin]%elem_of_cons; [|done].
    rewrite Hnone in Hkey. by destruct Hkey.
Qed.

(** X5.  [AddProxy] followed by [removeHandler] of the same service leaves
    no live backend for its path, and a request to the path gets the
    fallback; [removeHandler] followed by [AddProxy] leaves the service
    live, and a request to the path is served by it. *)
Theorem AddProxy_removeHandler_compose ph s w r :
  let removed := (removeHandler (AddProxy ph (Some s)).1 (Some s)).1 in
  let added := (AddProxy (removeHandler ph (Some s)).1 (Some s)).1 in
  live_backend removed (Path s) = None
  ∧ handler (Path s) removed w r = Replied (FallbackHandler ph w r)
  ∧ live_backend added (Path s) = Some s
  ∧ handler (Path s) added w r = ServeHTTP s w r.
Proof.
  intros removed added.
  assert (Hrem : proxyServers removed !! Path s = Some None).
  { subst removed. rewrite removeHandler_proxyServers. apply lookup_insert_eq. }
  assert (Hadd : proxyServers added !! Path s = Some (Some s)).
  { subst added. rewrite AddProxy_proxyServers. apply lookup_insert_eq. }
  assert (Hfb : FallbackHandler removed = FallbackHandler ph).
  { subst removed. apply (AddProxy_FallbackHandler ph (Some s)). }
  unfold live_backend, handler. rewrite Hrem, Hadd, Hfb. by split_and!.
Qed.

(** X6.  Operations on other prefixes do not change what a prefix routes
    to: its live backend and the answer to every request dispatched to it
    stay as they are. *)
Theorem other_prefixes_untouched ph ops path w r :
  Forall (λ o, op_path o ≠ Some path) ops →
  live_backend (run ph ops) path = live_backend ph path
  ∧ handler path (run ph ops) w r = handler path ph w r.
Proof.
  intros Hops. unfold live_backend, handler.
  by rewrite run_other, run_FallbackHandler.
Qed.

(** X7.  Registering a service again changes nothing and returns success,
    also when the first call panicked in [HandleFunc]; removing it again
    changes nothing. *)
Theorem AddProxy_removeHandler_idempotent ph s :
  AddProxy (AddProxy ph (Some s)).1 (Some s)
  = ((AddProxy ph (Some s)).1, Returned None)
  ∧ removeHandler (removeHandler ph (Some s)).1 (Some s)
    = ((removeHandler ph (Some s)).1, Returned tt).
Proof.
  split.
  - rewrite AddProxy_registered
      by (rewrite AddProxy_proxyServers, lookup_insert_eq; eauto).
    f_equal. rewrite AddProxy_proxyServers, insert_insert_eq.
    rewrite <-AddProxy_proxyServers. by destruct (AddProxy ph (Some s)).1.
  - unfold removeHandler, set_proxyServers. simpl.
    by rewrite insert_insert_eq.
Qed.

End routing_table_more.

(** * The console and the start-up registration *)

Section console.
Import proxy.
Context `{!url.Authority} `{!ServeMuxRules}.

Implicit Types (ph : RuntimeMux) (s : Service) (args : list string)
  (it : list (string * option Service)).

Lemma reachable_keys_ok ph : reachable ph → keys_ok ph.
Proof.
  intros [ops ->]. apply run_keys_ok. intros p sv Hp.
  simpl in Hp. by rewrite lookup_empty in Hp.
Qed.

Lemma reachable_run ph ops : reachable ph → reachable (run ph ops).
Proof. intros [ops0 ->]. exists (ops0 ++ ops)%list. by rewrite run_app. Qed.

Lemma CLI_add_run ph args : ∃ ops, (CLI_add ph args).1 = run ph ops.
Proof.
  unfold CLI_add.
  destruct args as [|verb [|name [|path [|Url [|]]]]]; try by exists [].
  destruct (NewService name path Url) as [service|err]; [|by exists []].
  exists [OpAddProxy (Some service)].
  change (run ph [OpAddProxy (Some service)])
    with (AddProxy ph (Some service)).1.
  by destruct (AddProxy ph (Some service)) as [ph' [[err|]|]].
Qed.

Lemma CLI_remove_run ph args : ∃ ops, (CLI_remove ph args).1 = run ph ops.
Proof.
  unfold CLI_remove.
  destruct args as [|verb [|path [|]]]; try by exists [].
  destruct (proxyServers ph !! path) as [service|]; [|by exists []].
  exists [OpRemoveHandler service].
  change (run ph [OpRemoveHandler service]) with (removeHandler ph service).1.
  by destruct (removeHandler ph service) as [ph' [[]|]].
Qed.

Lemma CLI_command_run ph it args :
  ∃ ops, (CLI_command ph it args).1 = run ph ops.
Proof.
  unfold CLI_command. destruct args as [|verb rest]; [by exists []|].
  destruct (String.eqb verb "add").
  { destruct (CLI_add_run ph (verb :: rest)) as [ops Hops]. exists ops.
    rewrite <-Hops. by destruct (CLI_add ph (verb :: rest)) as [ph' [m|]]. }
  destruct (String.eqb verb "remove").
  { destruct (CLI_remove_run ph (verb :: rest)) as [ops Hops]. exists ops.
    rewrite <-Hops. by destruct (CLI_remove ph (verb :: rest)) as [ph' [m|]]. }
  destruct (String.eqb verb "list"); [by exists []|].
  destruct (String.eqb verb "exit"); by exists [].
Qed.

Lemma CLI_loop_run ph lines : ∃ ops, (CLI_loop ph lines).1.1 = run ph ops.
Proof.
  revert ph. induction lines as [|[args it] rest IH]; intros ph; [by exists []|].
  simpl. destruct (CLI_command_run ph it args) as [ops1 Hops1].
  destruct (CLI_command ph it args) as [ph1 [[out [|]]|]]; simpl in *.
  - destruct (IH ph1) as [ops2 Hops2].
    exists (ops1 ++ ops2)%list. rewrite run_app, <-Hops1, <-Hops2.
    by destruct (CLI_loop ph1 rest) as [[ph2 outs] res].
  - by exists ops1.
  - by exists ops1.
Qed.

(** X8.  The console's [remove] of a live path turns the entry into a
    tombstone and requests to the path get the fallback; the same command
    once more panics, since it passes the stored nil pointer on. *)
Theorem CLI_remove_twice ph verb verb' path s w r :
  reachable ph →
  proxyServers ph !! path = Some (Some s) →
  let ph' := set_proxyServers ph (<[path := None]> (proxyServers ph)) in
  CLI_remove ph [verb; path] = (ph', Returned (RemovedService path))
  ∧ handler path ph' w r = Replied (FallbackHandler ph w r)
  ∧ CLI_remove ph' [verb'; path] = (ph', Panicked).
Proof.
  intros Hreach Hlive ph'.
  assert (Hpath : Path s = path) by by apply (reachable_keys_ok ph).
  assert (Hnil : proxyServers ph' !! path = Some None)
    by apply lookup_insert_eq.
  split_and!.
  - unfold CLI_remove. rewrite Hlive. unfold removeHandler. by rewrite Hpath.
  - unfold handler. by rewrite Hnil.
  - unfold CLI_remove. by rewrite Hnil.
Qed.

(** X9.  Whatever lines the console reads, the table it ends with is one
    that a sequence of [AddProxy] and [removeHandler] calls gives: no key is
    lost, and a table reached from [NewRuntimeMux] stays one. *)
Theorem CLI_session ph lines :
  let ph' := (CLI ph lines).1.1 in
  (∃ ops, ph' = run ph ops)
  ∧ dom (proxyServers ph) ⊆ dom (proxyServers ph')
  ∧ (reachable ph → reachable ph').
Proof.
  intros ph'.
  assert (Hrun : ∃ ops, ph' = run ph ops).
  { destruct (CLI_loop_run ph lines) as [ops Hops]. exists ops.
    subst ph'. unfold CLI. rewrite <-Hops.
    by destruct (CLI_loop ph lines) as [[ph1 outs] res]. }
  destruct Hrun as [ops ->]. split_and!; [by eexists|apply run_dom|].
  apply reachable_run.
Qed.

(** X10.  A line that is neither an [add] with three arguments nor a
    [remove] with one leaves the table as it is and does not panic. *)
Theorem CLI_command_no_write ph it args :
  (∀ name path Url, args ≠ ["add"; name; path; Url]) →
  (∀ path, args ≠ ["remove"; path]) →
  (CLI_command ph it args).1 = ph
  ∧ (CLI_command ph it args).2 ≠ Panicked.
Proof.
  intros Hadd Hremove. unfold CLI_command.
  destruct args as [|verb rest]; [done|].
  destruct (String.eqb_spec verb "add") as [-> | _].
  { unfold CLI_add.
    destruct rest as [|name [|path [|Url [|]]]]; try done.
    by destruct (Hadd name path Url). }
  destruct (String.eqb_spec verb "remove") as [-> | _].
  { unfold CLI_remove.
    destruct rest as [|path [|]]; try done.
    by destruct (Hremove path). }
  destruct (String.eqb verb "list"); [done|].
  by destruct (String.eqb verb "exit").
Qed.

(** X11.  The console stops at [exit]: the lines after it change neither
    the table nor the output. *)
Theorem CLI_exit_stops ph lines rest it after :
  CLI ph (lines ++ ("exit" :: rest, it) :: after)%list
  = CLI ph (lines ++ [("exit" :: rest, it)])%list.
Proof.
  unfold CLI.
  assert (Hloop : ∀ ph0,
    CLI_loop ph0 (lines ++ ("exit" :: rest, it) :: after)%list
    = CLI_loop ph0 (lines ++ [("exit" :: rest, it)])%list).
  { induction lines as [|[args it0] lines IH]; intros ph0; [done|].
    simpl. destruct (CLI_command ph0 it0 args) as [ph1 [[out [|]]|]]; try done.
    by rewrite IH. }
  by rewrite Hloop.
Qed.

(** The services that a walk of the table prints, each once when no two
    entries hold the same service. *)
Lemma omap_snd_NoDup it :
  NoDup it.*1 →
  (∀ path s, (path, Some s) ∈ it → Path s = path) →
  NoDup (omap snd it).
Proof.
  induction it as [|[path [s|]] it IH]; intros Hnodup Hkeys; simpl.
  - constructor.
  - apply NoDup_cons in Hnodup as [Hnotin Hnodup]. apply NoDup_cons. split.
    + intros ([path' entry] & Hin & Hentry)%list_elem_of_omap.
      simpl in Hentry. subst entry.
      assert (path' = path) as ->.
      { rewrite <-(Hkeys path' s) by by apply list_elem_of_further.
        apply Hkeys, list_elem_of_here. }
      apply Hnotin. by apply (list_elem_of_fmap_2 fst) in Hin.
    + apply IH; [done|]. intros p sv Hin.
      by apply Hkeys, list_elem_of_further.
  - apply NoDup_cons in Hnodup as [_ Hnodup].
    apply IH; [done|]. intros p sv Hin.
    by apply Hkeys, list_elem_of_further.
Qed.

(** X12.  [PrintPaths] prints, between its two frame lines, exactly the
    live services of the table, each once, and no tombstone, in whatever
    order the table is walked. *)
Theorem PrintPaths_live ph it :
  reachable ph →
  range_of (proxyServers ph) it →
  ∃ printed,
    PrintPaths ph it
    = (ServicesHeader :: (ServiceJson <$> printed) ++ [ServicesFooter])%list
    ∧ NoDup printed
    ∧ (∀ s, s ∈ printed ↔ live_backend ph (Path s) = Some s).
Proof.
  intros Hreach Hrange. exists (omap snd it).
  assert (Hkeys := reachable_keys_ok ph Hreach).
  assert (Hin : ∀ path entry,
            (path, entry) ∈ it ↔ proxyServers ph !! path = Some entry).
  { intros path entry. unfold range_of in Hrange. rewrite Hrange.
    apply elem_of_map_to_list. }
  split_and!; [done| |].
  - apply omap_snd_NoDup.
    + unfold range_of in Hrange. rewrite Hrange. apply NoDup_fst_map_to_list.
    + intros path s Hs. by apply Hkeys, Hin.
  - intros s. rewrite list_elem_of_omap. unfold live_backend. split.
    + intros ([path entry] & Hs & Hentry). simpl in Hentry. subst entry.
      apply Hin in Hs. rewrite (Hkeys _ _ Hs). by rewrite Hs.
    + destruct (proxyServers ph !! Path s) as [[s'|]|] eqn:Hs; try done.
      intros [= ->]. exists (Path s, Some s). split; [|done]. by apply Hin.
Qed.

(** X13.  After the console's [add] with a URL text that [url.Parse]
    accepts, a request dispatched to the path is forwarded to the parsed
    target. *)
Theorem CLI_add_then_dispatch ph verb name path Url u w r :
  url.Parse Url = Ok u →
  handler path (CLI_add ph [verb; name; path; Url]).1 w r = Forwarded u w r.
Proof.
  intros Hparse. unfold CLI_add, NewService. rewrite Hparse.
  set (service := {| Name := name; Path := path; Url := Url;
                     ReverseProxy := Some (NewSingleHostReverseProxy u) |}).
  assert (Hentry : proxyServers (AddProxy ph (Some service)).1 !! path
                   = Some (Some service)).
  { rewrite AddProxy_proxyServers. apply lookup_insert_eq. }
  unfold handler.
  destruct (AddProxy ph (Some service)) as [ph' [[err|]|]];
    simpl in *; by rewrite Hentry.
Qed.

Lemma AddProxy_keeps_live ph s path :
  is_Some (live_backend ph path) →
  is_Some (live_backend (AddProxy ph (Some s)).1 path).
Proof.
  unfold live_backend. rewrite AddProxy_proxyServers.
  destruct (decide (Path s = path)) as [<- | Hne].
  - rewrite lookup_insert_eq. eauto.
  - by rewrite lookup_insert_ne.
Qed.

Lemma setupProxies_range_cons e services ph :
  main.setupProxies_range (e :: services) ph
  = match NewService (main.name e) (main.path e) (main.url e) with
    | Err err => (ph, Returned (Some err))
    | Ok service =>
        match AddProxy ph (Some service) with
        | (ph', Returned (Some err)) => (ph', Returned (Some err))
        | (ph', Returned None) => main.setupProxies_range services ph'
        | (ph', Panicked) => (ph', Panicked)
        end
    end.
Proof. done. Qed.

Lemma setupProxies_range_keeps_live services ph path :
  is_Some (live_backend ph path) →
  is_Some (live_backend (main.setupProxies_range services ph).1 path).
Proof.
  revert ph. induction services as [|e services IH]; intros ph Hlive; [done|].
  rewrite setupProxies_range_cons.
  destruct (NewService _ _ _) as [service|err]; [|done].
  pose proof (AddProxy_keeps_live ph service path Hlive) as Hlive'.
  destruct (AddProxy ph (Some service)) as [ph' [[err|]|]]; try done.
  by apply IH.
Qed.

(** X14.  The start-up registration returns an error only for an entry
    whose URL text [url.Parse] rejects, and then keeps what it registered
    before; when it returns without error, every listed URL was accepted
    and every listed path has a live backend. *)
Theorem setupProxies_range_result services ph :
  let '(ph', res) := main.setupProxies_range services ph in
  dom (proxyServers ph) ⊆ dom (proxyServers ph')
  ∧ (∀ err, res = Returned (Some err) →
       ∃ e urlerr, e ∈ services
                   ∧ url.Parse (main.url e) = Err urlerr
                   ∧ err = ServiceURLInvalid (main.url e) urlerr)
  ∧ (res = Returned None →
       ∀ e, e ∈ services →
            is_Err (url.Parse (main.url e)) = false
            ∧ is_Some (live_backend ph' (main.path e))).
Proof.
  revert ph. induction services as [|e services IH]; intros ph.
  { simpl. split_and!; [done|done|]. intros _ e He. by apply elem_of_nil in He. }
  rewrite setupProxies_range_cons. unfold NewService.
  destruct (url.Parse (main.url e)) as [u|urlerr] eqn:Hparse.
  2:{ split_and!; [done| |done]. intros err [= <-].
      exists e, urlerr. split_and!; [apply list_elem_of_here|done|done]. }
  set (service := {| Name := main.name e; Path := main.path e;
                     Url := main.url e;
                     ReverseProxy := Some (NewSingleHostReverseProxy u) |}).
  assert (Hdom : dom (proxyServers ph)
                 ⊆ dom (proxyServers (AddProxy ph (Some service)).1))
    by apply (step_dom ph (OpAddProxy (Some service))).
  assert (Hlive : is_Some (live_backend (AddProxy ph (Some service)).1
                             (main.path e))).
  { unfold live_backend. rewrite AddProxy_proxyServers.
    change (main.path e) with (Path service). rewrite lookup_insert_eq. eauto. }
  assert (Hnoerr : ∀ err, (AddProxy ph (Some service)).2 ≠ Returned (Some err)).
  { intros err. unfold AddProxy, HandleFunc.
    destruct (bool_decide _); simpl; [done|]. by destruct (accepts _ _). }
  destruct (AddProxy ph (Some service)) as [ph1 [[err|]|]] eqn:Hadd; simpl in *.
  - by destruct (Hnoerr err).
  - specialize (IH ph1).
    pose proof (setupProxies_range_keeps_live services ph1 (main.path e) Hlive)
      as Hkept.
    destruct (main.setupProxies_range services ph1) as [ph2 res].
    destruct IH as (IHdom & IHerr & IHok). simpl in Hkept. split_and!.
    + by etrans.
    + intros err Herr. destruct (IHerr err Herr) as (e' & ue & He' & Hrest).
      exists e', ue. split; [by apply list_elem_of_further|done].
    + intros Hres e' He'. apply elem_of_cons in He' as [Heq | He'].
      * subst e'. by rewrite Hparse.
      * exact (IHok Hres e' He').
  - split_and!; done.
Qed.

End console.

(** * The certificate store: reloads and construction *)

Section certificate_store_more.
Import ssl.
Context `{!CryptoTLS}.

Implicit Types (cm : CertManager) (it : list (string * tls_Certificate))
  (hello : ClientHelloInfo).

(** What a call of [loadCertificate] does to the map: nothing, or one write
    of the loaded pair. *)
Lemma loadCertificate_certs cm :
  certs (loadCertificate cm).1 = certs cm
  ∨ ∃ cert x509Cert,
      LoadX509KeyPair (certFile cm) (keyFile cm) = Ok cert
      ∧ (loadCertificate cm).2 = None
      ∧ certs (loadCertificate cm).1 = <[domain x509Cert := cert]> (certs cm).
Proof.
  rewrite loadCertificate_cases.
  destruct (LoadX509KeyPair _ _) as [cert|err]; [|by left].
  destruct (Certificate cert) as [|leaf rest]; [by left|].
  destruct (ParseCertificate leaf) as [x509Cert|err]; [|by left].
  right. by exists cert, x509Cert.
Qed.

Lemma loadCertificate_files cm :
  certFile (loadCertificate cm).1 = certFile cm
  ∧ keyFile (loadCertificate cm).1 = keyFile cm.
Proof.
  rewrite loadCertificate_cases.
  destruct (LoadX509KeyPair _ _) as [cert|err]; [|done].
  destruct (Certificate cert) as [|leaf rest]; [done|].
  by destruct (ParseCertificate leaf).
Qed.

(** X15.  [loadCertificate] never takes a certificate out of the map and
    never changes the file names, whether it fails or not; a name that has
    an entry keeps resolving to an entry of its own, the one it had or the
    pair just loaded. *)
Theorem loadCertificate_keeps_entries cm it hello cert :
  certs cm !! ServerName hello = Some cert →
  dom (certs cm) ⊆ dom (certs (loadCertificate cm).1)
  ∧ certFile (loadCertificate cm).1 = certFile cm
  ∧ keyFile (loadCertificate cm).1 = keyFile cm
  ∧ (GetCertificate (loadCertificate cm).1 it hello = Ok cert
     ∨ ∃ cert', LoadX509KeyPair (certFile cm) (keyFile cm) = Ok cert'
                ∧ GetCertificate (loadCertificate cm).1 it hello = Ok cert').
Proof.
  intros Hname.
  destruct (loadCertificate_files cm) as [Hc Hk].
  unfold GetCertificate.
  destruct (loadCertificate_certs cm)
    as [-> | (cert' & x509Cert & Hload & _ & ->)].
  - rewrite Hname. split_and!; auto.
  - split_and!; [rewrite dom_insert_L; set_solver|done|done|].
    destruct (decide (domain x509Cert = ServerName hello)) as [<- | Hne].
    + right. exists cert'. by rewrite lookup_insert_eq.
    + left. by rewrite lookup_insert_ne, Hname.
Qed.

(** X16.  With the files unchanged, a second [loadCertificate] gives the
    state and the result of the first. *)
Theorem loadCertificate_idempotent cm :
  loadCertificate (loadCertificate cm).1 = loadCertificate cm.
Proof.
  rewrite !loadCertificate_cases.
  destruct (LoadX509KeyPair (certFile cm) (keyFile cm)) as [cert|err] eqn:Hload;
    simpl; rewrite ?Hload; [|done].
  destruct (Certificate cert) as [|leaf rest] eqn:Hchain;
    simpl; rewrite ?Hload, ?Hchain; [done|].
  destruct (ParseCertificate leaf) as [x509Cert|err] eqn:Hparse;
    simpl; rewrite Hload, Hchain, Hparse; [|done].
  unfold set_certs. simpl. by rewrite insert_insert_eq.
Qed.

(** X17.  A manager that [NewCertManager] returns keeps the two file names
    and holds exactly one certificate, the loaded pair under the name of its
    leaf; [GetCertificate] returns that pair for every requested name. *)
Theorem NewCertManager_single certFile0 keyFile0 cm it hello :
  NewCertManager certFile0 keyFile0 = Ok cm →
  range_of (certs cm) it →
  ∃ cert leaf rest x509Cert,
    LoadX509KeyPair certFile0 keyFile0 = Ok cert
    ∧ Certificate cert = leaf :: rest
    ∧ ParseCertificate leaf = Ok x509Cert
    ∧ certs cm = {[ domain x509Cert := cert ]}
    ∧ certFile cm = certFile0
    ∧ keyFile cm = keyFile0
    ∧ GetCertificate cm it hello = Ok cert.
Proof.
  unfold NewCertManager. rewrite loadCertificate_cases. simpl.
  destruct (LoadX509KeyPair _ _) as [cert|err] eqn:Hload; [|done].
  destruct (Certificate cert) as [|leaf rest] eqn:Hchain.
  { by apply LoadX509KeyPair_leaf in Hload. }
  destruct (ParseCertificate leaf) as [x509Cert|err] eqn:Hparse; [|done].
  intros [= <-] Hrange.
  unfold GetCertificate, range_of, set_certs in *. cbn [certs certFile keyFile] in *.
  exists cert, leaf, rest, x509Cert.
  assert (Hmap : <[domain x509Cert := cert]> (∅ : gmap string tls_Certificate)
                 = {[ domain x509Cert := cert ]}) by apply insert_empty.
  rewrite Hmap in *. split_and!; try done.
  rewrite map_to_list_singleton in Hrange.
  apply Permutation_singleton_r in Hrange as ->.
  destruct (_ !! ServerName hello) eqn:Hname; [|done].
  by apply lookup_singleton_Some in Hname as [_ ->].
Qed.

(** X18.  [NewCertManager] fails exactly when the pair cannot be loaded or
    its leaf cannot be parsed. *)
Theorem NewCertManager_fails certFile0 keyFile0 :
  is_Err (NewCertManager certFile0 keyFile0) = true
  ↔ is_Err (LoadX509KeyPair certFile0 keyFile0) = true
    ∨ ∃ cert leaf rest,
        LoadX509KeyPair certFile0 keyFile0 = Ok cert
        ∧ Certificate cert = leaf :: rest
        ∧ is_Err (ParseCertificate leaf) = true.
Proof.
  unfold NewCertManager. rewrite loadCertificate_cases. simpl.
  destruct (LoadX509KeyPair _ _) as [cert|err] eqn:Hload; [|by split; auto].
  destruct (Certificate cert) as [|leaf rest] eqn:Hchain.
  { by apply LoadX509KeyPair_leaf in Hload. }
  destruct (ParseCertificate leaf) as [x509Cert|err] eqn:Hparse; simpl.
  - split; [done|]. intros [? | (c & l & r & [= <-] & Hc & Hp)]; [done|].
    rewrite Hchain in Hc. injection Hc as <- <-. by rewrite Hparse in Hp.
  - split; [|done]. intros _. right. exists cert, leaf, rest.
    by rewrite Hparse.
Qed.

End certificate_store_more.

(** * Closed examples *)

Section examples.
Import proxy ssl.

#[local] Existing Instance plain_paths.
#[local] Existing Instance host_port.
#[local] Existing Instance example_disk.

(** The URL that the repository's test expects to be refused is refused,
    whatever the authority grammar. *)
Example Parse_test_invalid_url (A : url.Authority) :
  @url.Parse A "--calhost-:=-8080/" = Err url.FirstPathSegmentColon.
Proof. reflexivity. Qed.

Example NewService_backend :
  NewService "test" "/test/" "http://127.0.0.1:8082/" = Ok new_backend.
Proof. reflexivity. Qed.

Lemma AddProxy_last_write_wins_witness :
  let ph2 := run NewRuntimeMux
               [OpAddProxy (Some old_backend); OpAddProxy (Some new_backend)] in
  let ph3 := run ph2 [OpAddProxy (Some other_backend);
                      OpRemoveHandler (Some other_backend)] in
  handler "/test/" ph3 new_ResponseWriter (get "/test/")
  = ServeHTTP new_backend new_ResponseWriter (get "/test/").
Proof.
  refine (proj1 (AddProxy_last_write_wins NewRuntimeMux old_backend new_backend
           [OpAddProxy (Some other_backend); OpRemoveHandler (Some other_backend)]
           new_ResponseWriter (get "/test/") _ _)).
  - reflexivity.
  - repeat constructor; simpl; discriminate.
Defined.

Lemma handler_fallback_witness :
  let ph := run NewRuntimeMux
              [OpAddProxy (Some new_backend); OpRemoveHandler (Some new_backend)] in
  ∃ w', handler "/test/" ph new_ResponseWriter (get "/test/") = Replied w'
        ∧ status w' = 200
        ∧ body w' = "fallback: Path not found/test/".
Proof.
  apply (handler_fallback
           (run NewRuntimeMux
              [OpAddProxy (Some new_backend); OpRemoveHandler (Some new_backend)])
           "/test/" new_ResponseWriter (get "/test/")).
  - by eexists.
  - right. reflexivity.
  - reflexivity.
Defined.

(** C6, as stated, fails: ["/backend"] parses, to a URL that is not absolute,
    and [add] registers the service. *)
Lemma CLI_add_relative_url_counterexample :
  url.Parse "/backend"
  = Ok {| url.Scheme := ""; url.Opaque := ""; url.User := None; url.Host := "";
          url.Path := "/backend"; url.RawQuery := ""; url.Fragment := "" |}
  ∧ (∀ u, url.Parse "/backend" = Ok u → url.IsAbs u = false)
  ∧ (CLI_add NewRuntimeMux ["add"; "svc"; "/svc"; "/backend"]).2
    = Returned (AddedService "svc" "/svc")
  ∧ proxyServers NewRuntimeMux !! "/svc" = None
  ∧ is_Some (live_backend
               (CLI_add NewRuntimeMux ["add"; "svc"; "/svc"; "/backend"]).1 "/svc").
Proof.
  split_and!; try reflexivity.
  - by intros u [= <-].
  - vm_compute. eauto.
Qed.

Lemma CLI_add_url_witness :
  CLI_add NewRuntimeMux ["add"; "test"; "/test"; "--calhost-:=-8080/"]
  = (NewRuntimeMux,
     Returned (ErrorCreatingService
       (ServiceURLInvalid "--calhost-:=-8080/" url.FirstPathSegmentColon)))
  ∧ NewService "test" "/test/" "http://127.0.0.1:8082/" = Ok new_backend
  ∧ proxyServers
      (CLI_add NewRuntimeMux ["add"; "test"; "/test/"; "http://127.0.0.1:8082/"]).1
    !! "/test/" = Some (Some new_backend).
Proof.
  split.
  - apply (proj1 (CLI_add_url NewRuntimeMux "add" "test" "/test" "--calhost-:=-8080/")
             url.FirstPathSegmentColon).
    reflexivity.
  - assert (Hparse : url.Parse "http://127.0.0.1:8082/"
             = Ok {| url.Scheme := "http"; url.Opaque := ""; url.User := None;
                     url.Host := "127.0.0.1:8082"; url.Path := "/";
                     url.RawQuery := ""; url.Fragment := "" |})
      by reflexivity.
    destruct (proj2 (CLI_add_url NewRuntimeMux "add" "test" "/test/"
                       "http://127.0.0.1:8082/") _ Hparse)
      as (Hnew & _ & Hentry).
    split; [exact Hnew|exact Hentry].
Defined.

(** C7, as stated, fails: with the empty prefix a key of the table,
    [AddProxy] returns success for a backend with an empty prefix and no
    reverse proxy. *)
Lemma AddProxy_empty_prefix_counterexample :
  let ph := (removeHandler NewRuntimeMux (Some zero_Service)).1 in
  Path zero_Service = ""
  ∧ ReverseProxy zero_Service = None
  ∧ (AddProxy ph (Some zero_Service)).2 = Returned None.
Proof. split_and!; reflexivity. Qed.

(** On the new table the same call panics in [HandleFunc], with the entry
    already written. *)
Example AddProxy_empty_prefix_new_table :
  (AddProxy NewRuntimeMux (Some zero_Service)).2 = Panicked
  ∧ proxyServers (AddProxy NewRuntimeMux (Some zero_Service)).1 !! ""
    = Some (Some zero_Service)
  ∧ mux (AddProxy NewRuntimeMux (Some zero_Service)).1 = [].
Proof. split_and!; reflexivity. Qed.

(** C8, as stated, fails: [removeHandler] on the new table, where no prefix
    was registered, leaves a table with one key. *)
Lemma removeHandler_never_registered_counterexample :
  let ph' := (removeHandler NewRuntimeMux (Some new_backend)).1 in
  proxyServers NewRuntimeMux !! "/test/" = None
  ∧ proxyServers ph' !! "/test/" = Some None
  ∧ proxyServers ph' ≠ proxyServers NewRuntimeMux.
Proof.
  split_and!; try reflexivity.
  intros Heq.
  apply (f_equal (λ m : gmap string (option Service), m !! "/test/")) in Heq.
  discriminate Heq.
Qed.

Lemma removeHandler_never_registered_witness :
  proxyServers (removeHandler NewRuntimeMux (Some new_backend)).1
  = <["/test/" := None]> ∅.
Proof.
  apply (removeHandler_never_registered NewRuntimeMux new_backend).
  reflexivity.
Defined.

Lemma loadCertificate_failure_witness :
  certs (loadCertificate (unloaded "nonexistent.pem" "key.pem")).1 = ∅
  ∧ certs (loadCertificate (unloaded "broken.pem" "key.pem")).1 = ∅.
Proof.
  split.
  - apply (loadCertificate_failure (unloaded "nonexistent.pem" "key.pem")).
    left. by eexists.
  - apply (loadCertificate_failure (unloaded "broken.pem" "key.pem")).
    right. exists broken_cert, "der:broken", [], "x509: malformed certificate".
    split_and!; reflexivity.
Defined.

Lemma range_of_two_certs_ab :
  range_of (certs two_certs) [("a.example", cert_a); ("b.example", cert_b)].
Proof.
  unfold range_of, two_certs. simpl.
  rewrite map_to_list_insert by reflexivity.
  rewrite map_to_list_insert by reflexivity.
  by rewrite map_to_list_empty.
Qed.

Lemma range_of_two_certs_ba :
  range_of (certs two_certs) [("b.example", cert_b); ("a.example", cert_a)].
Proof.
  unfold range_of. rewrite <-range_of_two_certs_ab. apply perm_swap.
Qed.

Lemma GetCertificate_resolve_witness :
  GetCertificate two_certs [("b.example", cert_b); ("a.example", cert_a)]
    {| ServerName := "a.example" |} = Ok cert_a.
Proof.
  apply (GetCertificate_resolve two_certs
           [("b.example", cert_b); ("a.example", cert_a)]
           {| ServerName := "a.example" |}).
  - exact range_of_two_certs_ba.
  - reflexivity.
Defined.

(** C5, as stated, fails: for one store and one requested name, two walks of
    the map give two certificates; the second is not that of the least
    name. *)
Lemma GetCertificate_fallback_counterexample :
  let hello := {| ServerName := "other.example" |} in
  let ab := [("a.example", cert_a); ("b.example", cert_b)] in
  let ba := [("b.example", cert_b); ("a.example", cert_a)] in
  range_of (certs two_certs) ab
  ∧ range_of (certs two_certs) ba
  ∧ certs two_certs !! ServerName hello = None
  ∧ GetCertificate two_certs ab hello = Ok cert_a
  ∧ GetCertificate two_certs ba hello = Ok cert_b
  ∧ GetCertificate two_certs ab hello ≠ GetCertificate two_certs ba hello.
Proof.
  split_and!; try reflexivity.
  - exact range_of_two_certs_ab.
  - exact range_of_two_certs_ba.
  - discriminate.
Qed.

Lemma GetCertificate_fallback_witness :
  ∃ host cert rest,
    [("b.example", cert_b); ("a.example", cert_a)] = (host, cert) :: rest
    ∧ certs two_certs !! host = Some cert
    ∧ GetCertificate two_certs [("b.example", cert_b); ("a.example", cert_a)]
        {| ServerName := "other.example" |} = Ok cert.
Proof.
  destruct (GetCertificate_fallback two_certs
              [("b.example", cert_b); ("a.example", cert_a)]
              {| ServerName := "other.example" |})
    as (host & cert & rest & H1 & H2 & H3 & _).
  - exact range_of_two_certs_ba.
  - intros Heq.
    apply (f_equal (λ m : gmap string tls_Certificate, m !! "a.example")) in Heq.
    discriminate Heq.
  - reflexivity.
  - by exists host, cert, rest.
Defined.

Lemma loadCertificate_success_witness :
  let cm' := {| certs := <["example.com" := example_cert]> ∅;
                certFile := "cert.pem"; keyFile := "key.pem" |} in
  loadCertificate (unloaded "cert.pem" "key.pem") = (cm', None)
  ∧ certs cm' !! "example.com" = Some example_cert.
Proof.
  intros cm'.
  assert (Hret : loadCertificate (unloaded "cert.pem" "key.pem") = (cm', None))
    by reflexivity.
  split; [exact Hret|].
  destruct (loadCertificate_success (unloaded "cert.pem" "key.pem") cm' Hret)
    as (cert & leaf & rest & x509Cert & Hload & Hchain & Hparse & Hkey).
  injection Hload as <-. injection Hchain as <- <-.
  injection Hparse as <-. apply Hkey.
Defined.

End examples.

(** * Closed examples of the further properties *)

Section more_examples.
Import proxy ssl.

#[local] Existing Instance plain_paths.
#[local] Existing Instance host_port.
#[local] Existing Instance example_disk.

Lemma entry_points_once_witness :
  NoDup (mux (run NewRuntimeMux
                [OpAddProxy (Some old_backend); OpAddProxy (Some new_backend);
                 OpRemoveHandler (Some new_backend);
                 OpAddProxy (Some other_backend)])).
Proof.
  refine (proj1 (proj2 (entry_points_once _ _))). by eexists.
Defined.

Lemma live_entry_under_own_path_witness : Path new_backend = "/test/".
Proof.
  apply (live_entry_under_own_path
           (run NewRuntimeMux [OpAddProxy (Some new_backend)])
           "/test/" new_backend).
  - by eexists.
  - reflexivity.
Defined.

Lemma entry_point_never_installed_witness :
  "/test/" ∉ mux (run (removeHandler NewRuntimeMux (Some new_backend)).1
                    [OpAddProxy (Some new_backend);
                     OpRemoveHandler (Some new_backend);
                     OpAddProxy (Some old_backend)]).
Proof.
  apply (entry_point_never_installed
           (removeHandler NewRuntimeMux (Some new_backend)).1 "/test/").
  - by eexists.
  - apply not_elem_of_nil.
Defined.

Lemma other_prefixes_untouched_witness :
  let ph := run NewRuntimeMux [OpAddProxy (Some new_backend)] in
  live_backend
    (run ph [OpAddProxy (Some other_backend); OpRemoveHandler (Some other_backend)])
    "/test/"
  = live_backend ph "/test/".
Proof.
  intros ph.
  refine (proj1 (other_prefixes_untouched ph
            [OpAddProxy (Some other_backend); OpRemoveHandler (Some other_backend)]
            "/test/" new_ResponseWriter (get "/test/") _)).
  repeat constructor; simpl; discriminate.
Defined.

Lemma CLI_remove_twice_witness :
  let ph := run NewRuntimeMux [OpAddProxy (Some new_backend)] in
  let ph' := set_proxyServers ph (<["/test/" := None]> (proxyServers ph)) in
  CLI_remove ph ["remove"; "/test/"] = (ph', Returned (RemovedService "/test/"))
  ∧ CLI_remove ph' ["remove"; "/test/"] = (ph', Panicked).
Proof.
  intros ph ph'.
  destruct (CLI_remove_twice ph "remove" "remove" "/test/" new_backend
              new_ResponseWriter (get "/test/")) as (Hfirst & _ & Hsecond).
  - by eexists.
  - reflexivity.
  - split; [exact Hfirst|exact Hsecond].
Defined.

Lemma CLI_command_no_write_witness :
  (CLI_command NewRuntimeMux [] ["add"; "only-a-name"]).1 = NewRuntimeMux
  ∧ (CLI_command NewRuntimeMux [] ["remove"]).1 = NewRuntimeMux
  ∧ (CLI_command NewRuntimeMux [] ["help"]).1 = NewRuntimeMux.
Proof.
  split_and!.
  - refine (proj1 (CLI_command_no_write NewRuntimeMux [] ["add"; "only-a-name"] _ _));
      intros; discriminate.
  - refine (proj1 (CLI_command_no_write NewRuntimeMux [] ["remove"] _ _));
      intros; discriminate.
  - refine (proj1 (CLI_command_no_write NewRuntimeMux [] ["help"] _ _));
      intros; discriminate.
Defined.

Lemma range_of_example_table :
  proxy.range_of
    (proxyServers (run NewRuntimeMux [OpAddProxy (Some new_backend);
                                      OpRemoveHandler (Some other_backend)]))
    [("/test/", Some new_backend); ("/api/v1/", None)].
Proof.
  unfold proxy.range_of.
  change (proxyServers _)
    with (<["/api/v1/" := None]>
            (<["/test/" := Some new_backend]>
               (∅ : gmap string (option Service)))).
  rewrite map_to_list_insert by reflexivity.
  rewrite map_to_list_insert by reflexivity.
  rewrite map_to_list_empty. apply perm_swap.
Qed.

Lemma PrintPaths_live_witness :
  ∃ printed,
    PrintPaths (run NewRuntimeMux [OpAddProxy (Some new_backend);
                                   OpRemoveHandler (Some other_backend)])
      [("/test/", Some new_backend); ("/api/v1/", None)]
    = (ServicesHeader :: (ServiceJson <$> printed) ++ [ServicesFooter])%list
    ∧ NoDup printed.
Proof.
  destruct (PrintPaths_live
              (run NewRuntimeMux [OpAddProxy (Some new_backend);
                                  OpRemoveHandler (Some other_backend)])
              [("/test/", Some new_backend); ("/api/v1/", None)])
    as (printed & Hprinted & Hnodup & _).
  - by eexists.
  - exact range_of_example_table.
  - by exists printed.
Defined.

Lemma CLI_add_then_dispatch_witness :
  handler "/test/"
    (CLI_add NewRuntimeMux ["add"; "test"; "/test/"; "http://127.0.0.1:8082/"]).1
    new_ResponseWriter (get "/test/")
  = Forwarded
      {| url.Scheme := "http"; url.Opaque := ""; url.User := None;
         url.Host := "127.0.0.1:8082"; url.Path := "/"; url.RawQuery := "";
         url.Fragment := "" |}
      new_ResponseWriter (get "/test/").
Proof.
  apply (CLI_add_then_dispatch NewRuntimeMux "add" "test" "/test/"
           "http://127.0.0.1:8082/").
  reflexivity.
Defined.

Lemma loadCertificate_keeps_entries_witness :
  dom (certs two_certs) ⊆ dom (certs (loadCertificate two_certs).1).
Proof.
  refine (proj1 (loadCertificate_keeps_entries two_certs []
                   {| ServerName := "a.example" |} cert_a _)).
  reflexivity.
Defined.

Lemma NewCertManager_single_witness :
  let cm := {| certs := <["example.com" := example_cert]> ∅;
               certFile := "cert.pem"; keyFile := "key.pem" |} in
  NewCertManager "cert.pem" "key.pem" = Ok cm
  ∧ GetCertificate cm [("example.com", example_cert)]
      {| ServerName := "other.com" |} = Ok example_cert.
Proof.
  intros cm.
  assert (Hnew : NewCertManager "cert.pem" "key.pem" = Ok cm) by reflexivity.
  split; [exact Hnew|].
  destruct (NewCertManager_single "cert.pem" "key.pem" cm
              [("example.com", example_cert)] {| ServerName := "other.com" |} Hnew)
    as (cert & leaf & rest & x509Cert & Hload & _ & _ & _ & _ & _ & Hget).
  - unfold ssl.range_of, cm. simpl.
    rewrite map_to_list_insert by reflexivity.
    by rewrite map_to_list_empty.
  - injection Hload as <-. exact Hget.
Defined.

End more_examples.
